(** * NeonAsteroids: the simulation core of [GameEngine]

    A shallow embedding of the per-frame simulation of the game engine
    component: spawning, the physics step, the collision and resolution
    engine, the wave controller and the fire handler.

    Conventions of the embedding.
    - A JavaScript [number] that holds a coordinate, a speed, an angle or a
      radius is an exact rational ([Q]); the counters kept in the [useRef]
      cells (score, lives, ammunition, waves, shots, hits, frame counters)
      are integers ([Z]).
    - [Math.hypot(dx, dy) < r] is decided exactly on rationals by comparing
      squares ([hypot_lt]); lemma [hypot_lt_spec] ties it to the Euclidean
      distance over the reals.
    - [Math.cos], [Math.sin], [Math.PI], the sequence of values returned by
      [Math.random()] are parameters of the development; the world records how
      many random values were drawn so far.
    - The [useRef] cells of the component are the fields of [World]; a
      function that mutates them is a function from worlds to worlds.
    - [Date.now()] is read once per call and passed as [now]; it only
      feeds identifiers.
    - Calls to the audio collaborator and the [on...Update] notifications
      carry no simulation state and are left out; [setTimeout] calls are
      recorded in the world as pending timers.
    - [handleInput] (rotation, thrust and the speed cap) and [render] take no
      part in the statements below and are not embedded. *)

From Stdlib Require Import ZArith QArith Qround Qminmax Qreals Reals.
From Stdlib Require Import String List Bool Lia Lra Psatz.
Import ListNotations.

Open Scope Q_scope.

(** ** Numbers *)

Definition Qltb (a b : Q) : bool := negb (Qle_bool b a).

(** [Math.hypot(dx, dy) < r]. *)
Definition hypot_lt (dx dy r : Q) : bool :=
  Qltb 0 r && Qltb (dx * dx + dy * dy) (r * r).

(** The Euclidean length of the vector [(dx, dy)], as a real number. *)
Definition hypot (dx dy : Q) : R :=
  sqrt (Q2R dx * Q2R dx + Q2R dy * Q2R dy).

(** ** Data model (types.ts) *)

Inductive GameState := MENU | PLAYING | GAME_OVER | PAUSED | AI_INTERACTION.

Definition GameState_eqb (a b : GameState) : bool :=
  match a, b with
  | MENU, MENU | PLAYING, PLAYING | GAME_OVER, GAME_OVER
  | PAUSED, PAUSED | AI_INTERACTION, AI_INTERACTION => true
  | _, _ => false
  end.

Record Point := mkPoint { x : Q; y : Q }.

Definition Velocity := Point.

Inductive ObjectType := T_ship | T_asteroid | T_bullet | T_particle | T_powerup.

(** Identifiers are template strings built from a prefix, [Date.now()] and a
    loop index; they are kept structured. *)
Inductive Ident :=
| id_player
| id_asteroid (now i : Z)
| id_split (now k : Z)
| id_bullet (now : Z) (angleOffset : Q)
| id_pu (now : Z)
| id_p (now i : Z).

Record GameObject := mkGameObject {
  id : Ident;
  position : Point;
  velocity : Velocity;
  rotation : Q;
  radius : Q;
  type : ObjectType;
  destroyed : option bool;
  color : option string
}.

Record Asteroid := mkAsteroid {
  a_obj : GameObject;
  sizeClass : Z;
  vertices : list Point
}.

Inductive PowerupKind := life_kind | spread_kind.

Record Powerup := mkPowerup {
  pu_obj : GameObject;
  kind : PowerupKind;
  lifeTime : Z
}.

Record Particle := mkParticle {
  p_obj : GameObject;
  life : Q;
  maxLife : Q
}.

Record Ship := mkShip {
  s_obj : GameObject;
  thrusting : bool;
  invulnerable : Z;
  rotationSpeed : Q
}.

(** JavaScript truthiness of the optional [destroyed] flag. *)
Definition isDestroyed (o : GameObject) : bool :=
  match destroyed o with Some b => b | None => false end.

Definition set_position (o : GameObject) (p : Point) : GameObject :=
  mkGameObject (id o) p (velocity o) (rotation o) (radius o) (type o)
               (destroyed o) (color o).

Definition set_velocity (o : GameObject) (v : Velocity) : GameObject :=
  mkGameObject (id o) (position o) v (rotation o) (radius o) (type o)
               (destroyed o) (color o).

Definition set_rotation (o : GameObject) (r : Q) : GameObject :=
  mkGameObject (id o) (position o) (velocity o) r (radius o) (type o)
               (destroyed o) (color o).

Definition set_destroyed (o : GameObject) (b : bool) : GameObject :=
  mkGameObject (id o) (position o) (velocity o) (rotation o) (radius o)
               (type o) (Some b) (color o).

(** ** Constants *)

Definition SHIP_SIZE : Q := 15.
Definition FRICTION : Q := 0.98.
Definition BULLET_SPEED : Q := 7.
Definition ASTEROID_SPEED_BASE : Q := 1.
Definition SPREAD_AMMO_COUNT : Z := 50.
Definition POWERUP_LIFETIME : Z := 300.

(** ** The three overlap tests of [checkCollisions] *)

(** [Math.hypot(b.position.x - a.position.x, b.position.y - a.position.y)
     < a.radius] *)
Definition bulletHitsAsteroid (b : GameObject) (a : Asteroid) : bool :=
  hypot_lt (x (position b) - x (position (a_obj a)))
           (y (position b) - y (position (a_obj a)))
           (radius (a_obj a)).

(** [dist < a.radius + ship.radius - 5] *)
Definition shipHitsAsteroid (s : Ship) (a : Asteroid) : bool :=
  hypot_lt (x (position (s_obj s)) - x (position (a_obj a)))
           (y (position (s_obj s)) - y (position (a_obj a)))
           (radius (a_obj a) + radius (s_obj s) - 5).

(** [dist < p.radius + ship.radius] *)
Definition shipTouchesPowerup (s : Ship) (p : Powerup) : bool :=
  hypot_lt (x (position (s_obj s)) - x (position (pu_obj p)))
           (y (position (s_obj s)) - y (position (pu_obj p)))
           (radius (pu_obj p) + radius (s_obj s)).

(** The distance between the centers of two objects. *)
Definition centerDistance (o1 o2 : GameObject) : R :=
  hypot (x (position o1) - x (position o2)) (y (position o1) - y (position o2)).

(** ** The state of the component: one field per [useRef] cell *)

(** A callback handed to [setTimeout]. *)
Inductive Callback :=
| gameOverCallback
| resetShipCallback (width height : Q).

Record World := mkWorld {
  shipRef : Ship;
  asteroidsRef : list Asteroid;
  bulletsRef : list GameObject;
  particlesRef : list Particle;
  powerupsRef : list Powerup;
  scoreRef : Z;
  shotsFiredRef : Z;
  shotsHitRef : Z;
  waveCountRef : Z;
  spreadAmmoRef : Z;
  livesRef : Z;
  keys : string -> bool;
  (** pending [setTimeout] calls, with their delay in milliseconds *)
  timeouts : list (Z * Callback);
  (** number of [Math.random()] calls made so far *)
  randomCalls : nat
}.

Definition set_shipRef (w : World) (v : Ship) : World :=
  mkWorld v (asteroidsRef w) (bulletsRef w) (particlesRef w) (powerupsRef w)
    (scoreRef w) (shotsFiredRef w) (shotsHitRef w) (waveCountRef w)
    (spreadAmmoRef w) (livesRef w) (keys w) (timeouts w) (randomCalls w).

Definition set_asteroidsRef (w : World) (v : list Asteroid) : World :=
  mkWorld (shipRef w) v (bulletsRef w) (particlesRef w) (powerupsRef w)
    (scoreRef w) (shotsFiredRef w) (shotsHitRef w) (waveCountRef w)
    (spreadAmmoRef w) (livesRef w) (keys w) (timeouts w) (randomCalls w).

Definition set_bulletsRef (w : World) (v : list GameObject) : World :=
  mkWorld (shipRef w) (asteroidsRef w) v (particlesRef w) (powerupsRef w)
    (scoreRef w) (shotsFiredRef w) (shotsHitRef w) (waveCountRef w)
    (spreadAmmoRef w) (livesRef w) (keys w) (timeouts w) (randomCalls w).

Definition set_particlesRef (w : World) (v : list Particle) : World :=
  mkWorld (shipRef w) (asteroidsRef w) (bulletsRef w) v (powerupsRef w)
    (scoreRef w) (shotsFiredRef w) (shotsHitRef w) (waveCountRef w)
    (spreadAmmoRef w) (livesRef w) (keys w) (timeouts w) (randomCalls w).

Definition set_powerupsRef (w : World) (v : list Powerup) : World :=
  mkWorld (shipRef w) (asteroidsRef w) (bulletsRef w) (particlesRef w) v
    (scoreRef w) (shotsFiredRef w) (shotsHitRef w) (waveCountRef w)
    (spreadAmmoRef w) (livesRef w) (keys w) (timeouts w) (randomCalls w).

Definition set_scoreRef (w : World) (v : Z) : World :=
  mkWorld (shipRef w) (asteroidsRef w) (bulletsRef w) (particlesRef w)
    (powerupsRef w) v (shotsFiredRef w) (shotsHitRef w) (waveCountRef w)
    (spreadAmmoRef w) (livesRef w) (keys w) (timeouts w) (randomCalls w).

Definition set_shotsFiredRef (w : World) (v : Z) : World :=
  mkWorld (shipRef w) (asteroidsRef w) (bulletsRef w) (particlesRef w)
    (powerupsRef w) (scoreRef w) v (shotsHitRef w) (waveCountRef w)
    (spreadAmmoRef w) (livesRef w) (keys w) (timeouts w) (randomCalls w).

Definition set_shotsHitRef (w : World) (v : Z) : World :=
  mkWorld (shipRef w) (asteroidsRef w) (bulletsRef w) (particlesRef w)
    (powerupsRef w) (scoreRef w) (shotsFiredRef w) v (waveCountRef w)
    (spreadAmmoRef w) (livesRef w) (keys w) (timeouts w) (randomCalls w).

Definition set_waveCountRef (w : World) (v : Z) : World :=
  mkWorld (shipRef w) (asteroidsRef w) (bulletsRef w) (particlesRef w)
    (powerupsRef w) (scoreRef w) (shotsFiredRef w) (shotsHitRef w) v
    (spreadAmmoRef w) (livesRef w) (keys w) (timeouts w) (randomCalls w).

Definition set_spreadAmmoRef (w : World) (v : Z) : World :=
  mkWorld (shipRef w) (asteroidsRef w) (bulletsRef w) (particlesRef w)
    (powerupsRef w) (scoreRef w) (shotsFiredRef w) (shotsHitRef w)
    (waveCountRef w) v (livesRef w) (keys w) (timeouts w) (randomCalls w).

Definition set_livesRef (w : World) (v : Z) : World :=
  mkWorld (shipRef w) (asteroidsRef w) (bulletsRef w) (particlesRef w)
    (powerupsRef w) (scoreRef w) (shotsFiredRef w) (shotsHitRef w)
    (waveCountRef w) (spreadAmmoRef w) v (keys w) (timeouts w) (randomCalls w).

Definition set_keys (w : World) (v : string -> bool) : World :=
  mkWorld (shipRef w) (asteroidsRef w) (bulletsRef w) (particlesRef w)
    (powerupsRef w) (scoreRef w) (shotsFiredRef w) (shotsHitRef w)
    (waveCountRef w) (spreadAmmoRef w) (livesRef w) v (timeouts w)
    (randomCalls w).

Definition set_timeouts (w : World) (v : list (Z * Callback)) : World :=
  mkWorld (shipRef w) (asteroidsRef w) (bulletsRef w) (particlesRef w)
    (powerupsRef w) (scoreRef w) (shotsFiredRef w) (shotsHitRef w)
    (waveCountRef w) (spreadAmmoRef w) (livesRef w) (keys w) v (randomCalls w).

Definition set_randomCalls (w : World) (v : nat) : World :=
  mkWorld (shipRef w) (asteroidsRef w) (bulletsRef w) (particlesRef w)
    (powerupsRef w) (scoreRef w) (shotsFiredRef w) (shotsHitRef w)
    (waveCountRef w) (spreadAmmoRef w) (livesRef w) (keys w) (timeouts w) v.

(** ** Arrays and loops

    The loops of the component only read indices inside their array; in the
    embedding the [None] branch of such a lookup is never taken and keeps the
    state. *)

(** [arr.splice(i, 1)] *)
Definition splice1 {A : Type} (i : nat) (l : list A) : list A :=
  firstn i l ++ skipn (S i) l.

(** [arr[i] = v] for an index inside the array. *)
Fixpoint assign {A : Type} (i : nat) (v : A) (l : list A) : list A :=
  match l, i with
  | [], _ => []
  | _ :: t, O => v :: t
  | h :: t, S i' => h :: assign i' v t
  end.

(** [for (let i = n - 1; i >= 0; i--) body(i)] *)
Fixpoint forDown {S : Type} (n : nat) (body : nat -> S -> S) (s : S) : S :=
  match n with
  | O => s
  | Datatypes.S i => forDown i body (body i s)
  end.

(** [for (let i = i0; i < i0 + n; i++) body(i)] *)
Fixpoint forUp {S : Type} (n : nat) (i : Z) (body : Z -> S -> S) (s : S) : S :=
  match n with
  | O => s
  | Datatypes.S n' => forUp n' (i + 1)%Z body (body i s)
  end.

(** ** Computations over the world

    [State A] is a computation that reads and writes the world and always
    returns; [StateO A] is one that may still be running when its loop bound
    is reached ([None]). *)

Definition State (A : Type) : Type := World -> A * World.

Definition StateO (A : Type) : Type := World -> option (A * World).

Definition retO {A : Type} (a : A) : StateO A := fun w => Some (a, w).

Definition bindO {A B : Type} (m : StateO A) (k : A -> StateO B) : StateO B :=
  fun w => match m w with
           | Some (a, w') => k a w'
           | None => None
           end.

Definition lift {A : Type} (m : State A) : StateO A := fun w => Some (m w).

Notation "x <-? m ;; k" := (bindO m (fun x => k))
  (at level 61, m at next level, right associativity).

(** ** Platform primitives

    [Math.cos], [Math.sin] and [Math.PI] on rationals, and [Math.random]:
    [randomValue n] is the value returned by the [n]-th call of
    [Math.random()] since the component was mounted. *)

Module Math.

Class Platform := {
  cos : Q -> Q;
  sin : Q -> Q;
  PI : Q;
  randomValue : nat -> Q
}.

(** [Math.random()] *)
Definition random {P : Platform} : State Q :=
  fun w => (randomValue (randomCalls w),
            set_randomCalls w (S (randomCalls w))).

(** [Math.floor] *)
Definition floor (q : Q) : Z := Qfloor q.

End Math.

Section Engine.

Context {platform : Math.Platform}.

(** ** Spawning *)

(** The size-class draw of [spawnAsteroids]. *)
Definition drawSizeClass (currentScore : Z) (rand : Q) : Z :=
  if (5000 <? currentScore)%Z && Qltb rand 0.1 then 4%Z
  else if Qltb rand 0.25 then 3%Z
  else if Qltb rand 0.6 then 2%Z
  else 1%Z.

(** The [do ... while] loop of [spawnAsteroids] that rejects positions inside
    the safe zone; [fuel] bounds the number of iterations. *)
Fixpoint drawPosition (fuel : nat) (width height : Q) : StateO Point :=
  match fuel with
  | O => fun _ => None
  | S fuel' =>
      r1 <-? lift Math.random ;;
      r2 <-? lift Math.random ;;
      let px := r1 * width in
      let py := r2 * height in
      if hypot_lt (px - width / 2) (py - height / 2) 150
      then drawPosition fuel' width height
      else retO (mkPoint px py)
  end.

(** The vertex loop of [spawnAsteroids]. *)
Definition spawnVertices (radius : Q) (numVerts : Z) : State (list Point) :=
  fun w =>
    forUp (Z.to_nat numVerts) 0
      (fun v '(vertices, w) =>
         let angle := (inject_Z v / inject_Z numVerts) * Math.PI * 2 in
         let (rnd, w') := Math.random w in
         let r := radius * (0.8 + rnd * 0.4) in
         (vertices ++ [mkPoint (Math.cos angle * r) (Math.sin angle * r)], w'))
      ([], w).

(** One iteration of the [for] loop of [spawnAsteroids]. *)
Definition spawnAsteroid (fuel : nat) (now currentScore : Z)
    (width height : Q) (i : Z) : StateO Asteroid :=
  rand <-? lift Math.random ;;
  let sizeClass := drawSizeClass currentScore rand in
  let radius := inject_Z sizeClass * 18 in
  pos <-? drawPosition fuel width height ;;
  rv <-? lift Math.random ;;
  let numVerts := (8 + Math.floor (rv * 5))%Z in
  vertices <-? lift (spawnVertices radius numVerts) ;;
  vx <-? lift Math.random ;;
  vy <-? lift Math.random ;;
  rot <-? lift Math.random ;;
  retO (mkAsteroid
          (mkGameObject (id_asteroid now i) pos
             (mkPoint
                ((vx - 0.5) * ASTEROID_SPEED_BASE * (5 / inject_Z sizeClass))
                ((vy - 0.5) * ASTEROID_SPEED_BASE * (5 / inject_Z sizeClass)))
             (rot * Math.PI * 2) radius T_asteroid None None)
          sizeClass vertices).

Fixpoint spawnLoop (fuel : nat) (now currentScore : Z) (width height : Q)
    (n : nat) (i : Z) (newAsteroids : list Asteroid)
    : StateO (list Asteroid) :=
  match n with
  | O => retO newAsteroids
  | S n' =>
      a <-? spawnAsteroid fuel now currentScore width height i ;;
      spawnLoop fuel now currentScore width height n' (i + 1)%Z
                (newAsteroids ++ [a])
  end.

Definition spawnAsteroids (fuel : nat) (now : Z) (count : Z)
    (width height : Q) (w : World) : option World :=
  match spawnLoop fuel now (scoreRef w) width height (Z.to_nat count) 0 [] w
  with
  | Some (newAsteroids, w') =>
      Some (set_asteroidsRef w' (asteroidsRef w' ++ newAsteroids))
  | None => None
  end.

Definition spawnPowerup (now : Z) (t : PowerupKind) (width height : Q)
    (w : World) : World :=
  let (r1, w1) := Math.random w in
  let (r2, w2) := Math.random w1 in
  let px := r1 * (width - 40) + 20 in
  let py := r2 * (height - 40) + 20 in
  set_powerupsRef w2
    (powerupsRef w2 ++
     [mkPowerup
        (mkGameObject (id_pu now) (mkPoint px py) (mkPoint 0 0) 0 15
           T_powerup None None)
        t POWERUP_LIFETIME]).

Definition createParticle (now : Z) (pos : Point) (color : string) (i : Z)
    (w : World) : World :=
  let (vx, w1) := Math.random w in
  let (vy, w2) := Math.random w1 in
  let (rr, w3) := Math.random w2 in
  let (rl, w4) := Math.random w3 in
  set_particlesRef w4
    (particlesRef w4 ++
     [mkParticle
        (mkGameObject (id_p now i) pos
           (mkPoint ((vx - 0.5) * 4) ((vy - 0.5) * 4)) 0 (rr * 2 + 1)
           T_particle None (Some color))
        (30 + rl * 20) 50]).

Definition createParticles (now : Z) (pos : Point) (count : Z)
    (color : string) (w : World) : World :=
  forUp (Z.to_nat count) 0 (createParticle now pos color) w.

Definition resetShip (width height : Q) (w : World) : World :=
  let s := shipRef w in
  let o1 := set_position (s_obj s) (mkPoint (width / 2) (height / 2)) in
  let o2 := set_velocity o1 (mkPoint 0 0) in
  let o3 := set_rotation o2 (- Math.PI / 2) in
  let o4 := set_destroyed o3 false in
  set_shipRef w (mkShip o4 (thrusting s) 180 (rotationSpeed s)).

(** ** [updatePhysics] *)

(** [if (p < 0) p += bound; if (p > bound) p -= bound;] *)
Definition wrap (p bound : Q) : Q :=
  let p1 := if Qltb p 0 then p + bound else p in
  if Qltb bound p1 then p1 - bound else p1.

(** [position += velocity] followed by the wrap on both axes. *)
Definition moveAndWrap (width height : Q) (o : GameObject) : GameObject :=
  let px := x (position o) + x (velocity o) in
  let py := y (position o) + y (velocity o) in
  set_position o (mkPoint (wrap px width) (wrap py height)).

Definition updateShip (width height : Q) (s : Ship) : Ship :=
  if negb (isDestroyed (s_obj s)) then
    let px := x (position (s_obj s)) + x (velocity (s_obj s)) in
    let py := y (position (s_obj s)) + y (velocity (s_obj s)) in
    let vx := x (velocity (s_obj s)) * FRICTION in
    let vy := y (velocity (s_obj s)) * FRICTION in
    let o := set_velocity
               (set_position (s_obj s)
                  (mkPoint (wrap px width) (wrap py height)))
               (mkPoint vx vy) in
    mkShip o (thrusting s)
      (if (0 <? invulnerable s)%Z then (invulnerable s - 1)%Z
       else invulnerable s)
      (rotationSpeed s)
  else s.

Definition updateBullet (width height : Q) (i : nat) (bullets : list GameObject)
    : list GameObject :=
  match nth_error bullets i with
  | Some b =>
      let px := x (position b) + x (velocity b) in
      let py := y (position b) + y (velocity b) in
      if Qltb px 0 || Qltb width px || Qltb py 0 || Qltb height py
      then splice1 i bullets
      else assign i (set_position b (mkPoint px py)) bullets
  | None => bullets
  end.

Definition updateAsteroid (width height : Q) (a : Asteroid) : Asteroid :=
  mkAsteroid (moveAndWrap width height (a_obj a)) (sizeClass a) (vertices a).

Definition updatePowerup (i : nat) (powerups : list Powerup) : list Powerup :=
  match nth_error powerups i with
  | Some p =>
      let t := (lifeTime p - 1)%Z in
      if (t <=? 0)%Z then splice1 i powerups
      else assign i (mkPowerup (pu_obj p) (kind p) t) powerups
  | None => powerups
  end.

Definition updateParticle (i : nat) (particles : list Particle)
    : list Particle :=
  match nth_error particles i with
  | Some p =>
      let px := x (position (p_obj p)) + x (velocity (p_obj p)) in
      let py := y (position (p_obj p)) + y (velocity (p_obj p)) in
      let l := life p - 1 in
      if Qle_bool l 0 then splice1 i particles
      else assign i
             (mkParticle (set_position (p_obj p) (mkPoint px py)) l (maxLife p))
             particles
  | None => particles
  end.

Definition updatePhysics (width height : Q) (w : World) : World :=
  let w1 := set_shipRef w (updateShip width height (shipRef w)) in
  let w2 := set_bulletsRef w1
              (forDown (length (bulletsRef w1)) (updateBullet width height)
                 (bulletsRef w1)) in
  let w3 := set_asteroidsRef w2
              (map (updateAsteroid width height) (asteroidsRef w2)) in
  let w4 := set_powerupsRef w3
              (forDown (length (powerupsRef w3)) updatePowerup
                 (powerupsRef w3)) in
  set_particlesRef w4
    (forDown (length (particlesRef w4)) updateParticle (particlesRef w4)).

(** ** [checkCollisions] *)

(** [a.sizeClass === 4 ? 15 : a.sizeClass === 3 ? 20 :
     a.sizeClass === 2 ? 50 : 100] *)
Definition points (sizeClass : Z) : Z :=
  if (sizeClass =? 4)%Z then 15
  else if (sizeClass =? 3)%Z then 20
  else if (sizeClass =? 2)%Z then 50
  else 100.

(** The vertex loop of a fragment. *)
Definition splitVertices (r : Q) (numVerts : Z) : State (list Point) :=
  fun w =>
    forUp (Z.to_nat numVerts) 0
      (fun v '(vertices, w) =>
         let angle := (inject_Z v / inject_Z numVerts) * Math.PI * 2 in
         let (r1, w1) := Math.random w in
         let (r2, w2) := Math.random w1 in
         (vertices ++
          [mkPoint (Math.cos angle * r * (0.8 + r1 * 0.4))
                   (Math.sin angle * r * (0.8 + r2 * 0.4))], w2))
      ([], w).

(** One iteration of [for (let k = 0; k < 2; k++)]: a fragment of [a] is
    pushed on the asteroid array. *)
Definition splitChild (now : Z) (a : Asteroid) (newSize : Z) (k : Z)
    (w : World) : World :=
  let (rv, w1) := Math.random w in
  let numVerts := (6 + Math.floor (rv * 4))%Z in
  let r := inject_Z newSize * 18 in
  let (vertices, w2) := splitVertices r numVerts w1 in
  let (vx, w3) := Math.random w2 in
  let (vy, w4) := Math.random w3 in
  let (rot, w5) := Math.random w4 in
  set_asteroidsRef w5
    (asteroidsRef w5 ++
     [mkAsteroid
        (mkGameObject (id_split now k) (position (a_obj a))
           (mkPoint ((vx - 0.5) * 2.5 * (4 / inject_Z newSize))
                    ((vy - 0.5) * 2.5 * (4 / inject_Z newSize)))
           (rot * 6) r T_asteroid None None)
        newSize vertices]).

(** The body of [if (dist < a.radius)]: the bullet struck asteroid [a], which
    sits at index [j]. *)
Definition hitAsteroid (now : Z) (j : nat) (a : Asteroid) (w : World) : World :=
  let w1 := createParticles now (position (a_obj a)) (5 + sizeClass a * 2)
              "#00f3ff" w in
  let w2 := set_shotsHitRef w1 (shotsHitRef w1 + 1) in
  let w3 := set_scoreRef w2 (scoreRef w2 + points (sizeClass a)) in
  let w4 := if (1 <? sizeClass a)%Z
            then forUp 2 0 (splitChild now a (sizeClass a - 1)) w3
            else w3 in
  set_asteroidsRef w4 (splice1 j (asteroidsRef w4)).

(** [for (let j = n - 1; j >= 0; j--)] with its [break]: the result tells
    whether the bullet hit. *)
Fixpoint scanAsteroids (now : Z) (b : GameObject) (n : nat) (w : World)
    : bool * World :=
  match n with
  | O => (false, w)
  | S j =>
      match nth_error (asteroidsRef w) j with
      | Some a =>
          if bulletHitsAsteroid b a then (true, hitAsteroid now j a w)
          else scanAsteroids now b j w
      | None => scanAsteroids now b j w
      end
  end.

(** The body of the outer loop over the bullets. *)
Definition bulletVsAsteroids (now : Z) (i : nat) (w : World) : World :=
  match nth_error (bulletsRef w) i with
  | Some b =>
      let (hit, w1) := scanAsteroids now b (length (asteroidsRef w)) w in
      if hit then set_bulletsRef w1 (splice1 i (bulletsRef w1)) else w1
  | None => w
  end.

(** The body of [if (dist < a.radius + ship.radius - 5)]. *)
Definition destroyShip (now : Z) (width height : Q) (w : World) : World :=
  let s := shipRef w in
  let w1 := set_shipRef w
              (mkShip (set_destroyed (s_obj s) true) (thrusting s)
                 (invulnerable s) (rotationSpeed s)) in
  let w2 := createParticles now (position (s_obj s)) 20 "#ff00ff" w1 in
  let w3 := set_livesRef w2 (livesRef w2 - 1) in
  let w4 := set_spreadAmmoRef w3 0 in
  if (livesRef w4 <=? 0)%Z
  then set_timeouts w4 (timeouts w4 ++ [(1000%Z, gameOverCallback)])
  else set_timeouts w4
         (timeouts w4 ++ [(2000%Z, resetShipCallback width height)]).

(** [for (const a of asteroidsRef.current)] with its [break]. *)
Fixpoint shipScan (now : Z) (width height : Q) (l : list Asteroid) (w : World)
    : World :=
  match l with
  | [] => w
  | a :: rest =>
      if shipHitsAsteroid (shipRef w) a then destroyShip now width height w
      else shipScan now width height rest w
  end.

Definition shipVsAsteroids (now : Z) (width height : Q) (w : World) : World :=
  if negb (isDestroyed (s_obj (shipRef w)))
     && (invulnerable (shipRef w) <=? 0)%Z
  then shipScan now width height (asteroidsRef w) w
  else w.

(** The body of the loop over the powerups. *)
Definition collectPowerup (now : Z) (i : nat) (w : World) : World :=
  match nth_error (powerupsRef w) i with
  | Some p =>
      if shipTouchesPowerup (shipRef w) p then
        let w1 := match kind p with
                  | life_kind =>
                      if (livesRef w <? 5)%Z
                      then set_livesRef w (livesRef w + 1)
                      else w
                  | spread_kind => set_spreadAmmoRef w SPREAD_AMMO_COUNT
                  end in
        let w2 := set_powerupsRef w1 (splice1 i (powerupsRef w1)) in
        createParticles now (position (pu_obj p)) 10
          (match kind p with
           | life_kind => "#00ff00"
           | spread_kind => "#ffaa00"
           end) w2
      else w
  | None => w
  end.

Definition shipVsPowerups (now : Z) (w : World) : World :=
  if negb (isDestroyed (s_obj (shipRef w)))
  then forDown (length (powerupsRef w)) (collectPowerup now) w
  else w.

(** Level complete / wave clear. *)
Definition waveCheck (fuel : nat) (now : Z) (gameState : GameState)
    (width height : Q) (w : World) : option World :=
  if (length (asteroidsRef w) =? 0)%nat && GameState_eqb PLAYING gameState
  then
    let w1 := set_waveCountRef w (waveCountRef w + 1) in
    let difficultyMod := Math.floor (inject_Z (scoreRef w1) / 800) in
    match spawnAsteroids fuel now (5 + difficultyMod) width height w1 with
    | Some w2 =>
        if (0 <? waveCountRef w2)%Z && (Z.rem (waveCountRef w2) 5 =? 0)%Z
        then Some (spawnPowerup now life_kind width height w2)
        else Some w2
    | None => None
    end
  else Some w.

Definition checkCollisions (fuel : nat) (now : Z) (gameState : GameState)
    (width height : Q) (w : World) : option World :=
  let w1 := forDown (length (bulletsRef w)) (bulletVsAsteroids now) w in
  let w2 := shipVsAsteroids now width height w1 in
  let w3 := shipVsPowerups now w2 in
  waveCheck fuel now gameState width height w3.

(** ** Input listeners *)

Definition makeBullet (now : Z) (hasSpread : bool) (angleOffset : Q)
    (w : World) : World :=
  let angle := rotation (s_obj (shipRef w)) + angleOffset in
  set_bulletsRef w
    (bulletsRef w ++
     [mkGameObject (id_bullet now angleOffset)
        (position (s_obj (shipRef w)))
        (mkPoint (Math.cos angle * BULLET_SPEED)
                 (Math.sin angle * BULLET_SPEED))
        0 2 T_bullet None
        (Some (if hasSpread then "#ff9900" else "#ff00aa")%string)]).

(** The offsets of the fan: [[0, -25 * (Math.PI / 180), 25 * (Math.PI / 180)]]
    with spread ammunition, [[0]] without. *)
Definition fireAngles (hasSpread : bool) : list Q :=
  if hasSpread
  then [0; -25 * (Math.PI / 180); 25 * (Math.PI / 180)]
  else [0].

Definition handleKeyDown (now : Z) (gameState : GameState) (code : string)
    (w : World) : World :=
  let w0 := set_keys w (fun k => if String.eqb k code then true else keys w k) in
  if String.eqb code "Space" && GameState_eqb gameState PLAYING
     && negb (isDestroyed (s_obj (shipRef w0)))
  then
    let hasSpread := (0 <? spreadAmmoRef w0)%Z in
    let angles := fireAngles hasSpread in
    let w1 := fold_left (fun w angleOffset => makeBullet now hasSpread angleOffset w)
                angles w0 in
    let w2 := if hasSpread
              then set_spreadAmmoRef w1 (spreadAmmoRef w1 - 1)
              else w1 in
    set_shotsFiredRef w2 (shotsFiredRef w2 + 1)
  else w0.

Definition handleKeyUp (code : string) (w : World) : World :=
  set_keys w (fun k => if String.eqb k code then false else keys w k).

End Engine.

(** ** The rest of the component

    [handleInput], the frame [loop], the effect that starts a run, the
    periodic weapon drop and the callbacks handed to [setTimeout].  The value
    that [Math.hypot] returns for the ship's speed is one more platform
    primitive. *)

Definition ROTATION_SPEED : Q := 0.08.
Definition THRUST : Q := 0.15.
Definition MAX_SPEED : Q := 6.

Class HypotPrimitive := {
  hypotValue : Q -> Q -> Q
}.

(** [Math.round]: the nearest integer, ties upwards. *)
Definition Math_round (q : Q) : Z := Qfloor (q + 0.5).

(** [canvasRef.current?.width || 800]: the default stands in for a missing
    canvas and for a dimension of 0. *)
Definition orDefault (v : option Q) (d : Q) : Q :=
  match v with
  | Some q => if Qeq_bool q 0 then d else q
  | None => d
  end.

Section Lifecycle.

Context {platform : Math.Platform} {hypotPrimitive : HypotPrimitive}.

Definition handleInput (w : World) : World :=
  let s := shipRef w in
  if isDestroyed (s_obj s) then w
  else
    let rot1 := if keys w "ArrowLeft"
                then rotation (s_obj s) - ROTATION_SPEED
                else rotation (s_obj s) in
    let rot2 := if keys w "ArrowRight" then rot1 + ROTATION_SPEED else rot1 in
    let v0 := velocity (s_obj s) in
    let thrust := keys w "ArrowUp" in
    let v1 := if thrust
              then mkPoint (x v0 + Math.cos rot2 * THRUST)
                           (y v0 + Math.sin rot2 * THRUST)
              else v0 in
    let speed := hypotValue (x v1) (y v1) in
    let v2 := if Qltb MAX_SPEED speed
              then mkPoint (x v1 / speed * MAX_SPEED)
                           (y v1 / speed * MAX_SPEED)
              else v1 in
    set_shipRef w
      (mkShip (set_velocity (set_rotation (s_obj s) rot2) v2) thrust
              (invulnerable s) (rotationSpeed s)).

(** The body of [loop] up to the hand-off to [render]. *)
Definition loop (fuel : nat) (now : Z) (gameState : GameState)
    (width height : Q) (w : World) : option World :=
  if GameState_eqb gameState PLAYING
  then checkCollisions fuel now gameState width height
         (updatePhysics width height (handleInput w))
  else Some w.

(** [n] iterations of [loop] with no input event in between. *)
Fixpoint loops (n : nat) (fuel : nat) (now : Z) (gameState : GameState)
    (width height : Q) (w : World) : option World :=
  match n with
  | O => Some w
  | S n' =>
      match loop fuel now gameState width height w with
      | Some w1 => loops n' fuel now gameState width height w1
      | None => None
      end
  end.

(** The effect that runs when [gameState] changes, with the canvas mounted:
    a run is set up only when the asteroid array is empty. *)
Definition startEffect (fuel : nat) (now : Z) (gameState : GameState)
    (width height : Q) (w : World) : option World :=
  if GameState_eqb gameState PLAYING && (length (asteroidsRef w) =? 0)%nat
  then
    match spawnAsteroids fuel now 5 width height w with
    | Some w1 =>
        let w2 := resetShip width height w1 in
        let w3 := set_waveCountRef w2 0 in
        let w4 := set_spreadAmmoRef w3 0 in
        Some (set_powerupsRef w4 [])
    | None => None
    end
  else Some w.

(** The callback of the 45 second interval; [canvas] holds the width and the
    height of the canvas when it is mounted. *)
Definition powerupInterval (now : Z) (canvas : option (Q * Q)) (w : World)
    : World :=
  if (length (powerupsRef w) =? 0)%nat
  then spawnPowerup now spread_kind
         (orDefault (option_map fst canvas) 800)
         (orDefault (option_map snd canvas) 600) w
  else w.

(** The accuracy reported by the game-over callback. *)
Definition accuracy (w : World) : Z :=
  if (0 <? shotsFiredRef w)%Z
  then Math_round (inject_Z (shotsHitRef w) / inject_Z (shotsFiredRef w) * 100)
  else 0%Z.

(** Running a callback when its timer fires: the new world, and the accuracy
    and game state handed to the host by the game-over callback. *)
Definition runCallback (cb : Callback) (w : World)
    : World * option (Z * GameState) :=
  match cb with
  | gameOverCallback => (w, Some (accuracy w, GAME_OVER))
  | resetShipCallback width height => (resetShip width height w, None)
  end.

End Lifecycle.

(** ** Vocabulary of the statements *)

(** [w'] differs from [w] at most in the particles and in the number of random
    values drawn. *)
Definition sameGameplay (w w' : World) : Prop :=
  shipRef w' = shipRef w /\ asteroidsRef w' = asteroidsRef w /\
  bulletsRef w' = bulletsRef w /\ powerupsRef w' = powerupsRef w /\
  scoreRef w' = scoreRef w /\ shotsFiredRef w' = shotsFiredRef w /\
  shotsHitRef w' = shotsHitRef w /\ waveCountRef w' = waveCountRef w /\
  spreadAmmoRef w' = spreadAmmoRef w /\ livesRef w' = livesRef w /\
  timeouts w' = timeouts w.

(** The cells that the resolution of a bullet hit does not write. *)
Definition bystanders (w : World) :=
  (shipRef w, bulletsRef w, powerupsRef w, shotsFiredRef w, waveCountRef w,
   spreadAmmoRef w, livesRef w, timeouts w).

(** [c] is a fragment of [a]: one size class below, at the same position,
    with the radius of its class. *)
Definition fragmentOf (a c : Asteroid) : Prop :=
  sizeClass c = (sizeClass a - 1)%Z /\
  position (a_obj c) = position (a_obj a) /\
  radius (a_obj c) = inject_Z (sizeClass a - 1) * 18.

(** [d] degrees in radians, as the fire handler writes it. *)
Definition degrees {P : Math.Platform} (d : Q) : Q := d * (Math.PI / 180).

(** The velocity of a bullet fired at [angle]. *)
Definition aim {P : Math.Platform} (angle : Q) : Velocity :=
  mkPoint (Math.cos angle * BULLET_SPEED) (Math.sin angle * BULLET_SPEED).

(** The closed box [[0, width] x [0, height]] and the half-open box
    [[0, width) x [0, height)]. *)
Definition inBox (width height : Q) (p : Point) : Prop :=
  (0 <= x p <= width) /\ (0 <= y p <= height).

Definition inHalfOpenBox (width height : Q) (p : Point) : Prop :=
  (0 <= x p /\ x p < width) /\ (0 <= y p /\ y p < height).

(** One step of [v] does not exceed the size of the box. *)
Definition stepFits (width height : Q) (v : Velocity) : Prop :=
  (- width <= x v <= width) /\ (- height <= y v <= height).

Definition insideAndSlow (width height : Q) (o : GameObject) : Prop :=
  inBox width height (position o) /\ stepFits width height (velocity o).

(** The test of [updatePhysics] that removes a bullet, on its new position. *)
Definition leavesBox (width height : Q) (b : GameObject) : bool :=
  let px := x (position b) + x (velocity b) in
  let py := y (position b) + y (velocity b) in
  Qltb px 0 || Qltb width px || Qltb py 0 || Qltb height py.

Definition movedBullet (b : GameObject) : GameObject :=
  set_position b (mkPoint (x (position b) + x (velocity b))
                          (y (position b) + y (velocity b))).

(** The candidate position that [spawnAsteroids] builds from the random
    values number [n] and [n + 1] is accepted by the safe-zone test. *)
Definition outsideSafeZone {P : Math.Platform} (width height : Q) (n : nat)
    : Prop :=
  hypot_lt (Math.randomValue n * width - width / 2)
           (Math.randomValue (S n) * height - height / 2) 150 = false.

(** Wherever the rejection loop starts in the random sequence, one of its
    candidates is accepted. *)
Definition escapesSafeZone {P : Math.Platform} (width height : Q) : Prop :=
  forall n, exists k, outsideSafeZone width height (n + 2 * k).

(** The physics and collision phases of one iteration of [loop]. *)
Definition frame {P : Math.Platform} (fuel : nat) (now : Z)
    (gameState : GameState) (width height : Q) (w : World) : option World :=
  checkCollisions fuel now gameState width height
    (updatePhysics width height w).

(** ** Sample data

    A rational stand-in for the platform primitives (truncated series clamped
    to [[-1, 1]], and a random source that alternates between 9/10 and 1/10),
    and a few concrete worlds of 800 x 600 on which the definitions are
    evaluated. *)

Definition clampUnit (q : Q) : Q := Qmax (-1) (Qmin 1 q).

Definition samplePlatform : Math.Platform := {|
  Math.cos := fun a => clampUnit (1 - a * a / 2);
  Math.sin := fun a => clampUnit (a - a * a * a / 6);
  Math.PI := 355 # 113;
  Math.randomValue := fun n => if Nat.even n then 0.9 else 0.1
|}.

Definition sampleShipAt (p : Point) (inv : Z) : Ship :=
  mkShip (mkGameObject id_player p (mkPoint 0 0) 0 SHIP_SIZE T_ship None None)
         false inv 0.

Definition sampleAsteroid (k : Z) (p : Point) (v : Velocity) : Asteroid :=
  mkAsteroid
    (mkGameObject (id_asteroid 0 0) p v 0 (inject_Z k * 18) T_asteroid None None)
    k [].

Definition sampleBullet (p : Point) (v : Velocity) : GameObject :=
  mkGameObject (id_bullet 0 0) p v 0 2 T_bullet None (Some "#ff00aa"%string).

Definition samplePowerup (t : PowerupKind) (p : Point) : Powerup :=
  mkPowerup (mkGameObject (id_pu 0) p (mkPoint 0 0) 0 15 T_powerup None None)
            t POWERUP_LIFETIME.

Definition sampleWorld (s : Ship) (asteroids : list Asteroid)
    (bullets : list GameObject) (powerups : list Powerup)
    (score wave ammo lives : Z) : World :=
  mkWorld s asteroids bullets [] powerups score 0 0 wave ammo lives
          (fun _ => false) [] 0.

(** A bullet 37 units away from a size-2 asteroid (radius 36). *)
Definition grazingBullet : GameObject :=
  sampleBullet (mkPoint 37 0) (mkPoint 0 0).

Definition grazedAsteroid : Asteroid :=
  sampleAsteroid 2 (mkPoint 0 0) (mkPoint 0 0).

(** An asteroid one step away from the right edge. *)
Definition edgeWorld : World :=
  sampleWorld (sampleShipAt (mkPoint 400 300) 0)
    [sampleAsteroid 1 (mkPoint 799 10) (mkPoint 1 0)] [] [] 0 1 0 3.

(** A bullet resting on a size-3 asteroid, with a second asteroid far away. *)
Definition hitWorld : World :=
  sampleWorld (sampleShipAt (mkPoint 400 300) 60)
    [sampleAsteroid 1 (mkPoint 100 100) (mkPoint 0 0);
     sampleAsteroid 3 (mkPoint 600 200) (mkPoint 0 0)]
    [sampleBullet (mkPoint 610 210) (mkPoint 7 0)] [] 40 1 0 3.

(** A cleared field at the end of wave 4, with 1700 points. *)
Definition clearedWorld : World :=
  sampleWorld (sampleShipAt (mkPoint 400 300) 0) [] [] [] 1700 4 0 3.

(** A ship with 50 rounds of spread ammunition, still invulnerable, with a
    size-2 asteroid drifting over it and a small one far away; no shot was
    fired yet. *)
Definition volleyWorld : World :=
  sampleWorld (sampleShipAt (mkPoint 400 300) 60)
    [sampleAsteroid 1 (mkPoint 100 100) (mkPoint 0 0);
     sampleAsteroid 2 (mkPoint 400 300) (mkPoint 0 0)]
    [] [] 0 1 50 3.

(** The bullet that a fire event in [volleyWorld] creates for [angleOffset]. *)
Definition volleyBullet {P : Math.Platform} (angleOffset : Q) : GameObject :=
  mkGameObject (id_bullet 0 angleOffset) (mkPoint 400 300)
    (aim (0 + angleOffset)) 0 2 T_bullet None (Some "#ff9900"%string).

(** A vulnerable ship overlapped by two asteroids at once. *)
Definition crashWorld : World :=
  sampleWorld (sampleShipAt (mkPoint 400 300) 0)
    [sampleAsteroid 1 (mkPoint 100 100) (mkPoint 0 0);
     sampleAsteroid 2 (mkPoint 410 300) (mkPoint 1 0);
     sampleAsteroid 3 (mkPoint 400 330) (mkPoint 0 1)]
    [] [] 0 1 12 3.

(** A ship resting on a life powerup, with 3 lives. *)
Definition pickupWorld : World :=
  sampleWorld (sampleShipAt (mkPoint 400 300) 0)
    [sampleAsteroid 1 (mkPoint 100 100) (mkPoint 0 0)] []
    [samplePowerup life_kind (mkPoint 405 300)] 0 1 0 3.

(** A destroyed ship that still carries velocity and invulnerability. *)
Definition wreckWorld : World :=
  sampleWorld
    (mkShip (mkGameObject id_player (mkPoint 400 300) (mkPoint 2 (-1)) 0
               SHIP_SIZE T_ship (Some true) None)
            false 30 0)
    [sampleAsteroid 1 (mkPoint 100 100) (mkPoint 0 0)] [] [] 0 1 0 2.

(** ** Vocabulary of the further statements *)

(** One step of a backward sweep that drops the entries selected by [drop]
    and updates the others with [f]. *)
Definition sweepStep {A : Type} (drop : A -> bool) (f : A -> A) (i : nat)
    (l : list A) : list A :=
  match nth_error l i with
  | Some a => if drop a then splice1 i l else assign i (f a) l
  | None => l
  end.

(** A powerup one frame older, and the test that its time is up. *)
Definition agedPowerup (p : Powerup) : Powerup :=
  mkPowerup (pu_obj p) (kind p) (lifeTime p - 1).

Definition expires (p : Powerup) : bool := (lifeTime p - 1 <=? 0)%Z.

(** A particle one frame older, and the test that it has faded. *)
Definition agedParticle (p : Particle) : Particle :=
  mkParticle
    (set_position (p_obj p)
       (mkPoint (x (position (p_obj p)) + x (velocity (p_obj p)))
                (y (position (p_obj p)) + y (velocity (p_obj p)))))
    (life p - 1) (maxLife p).

Definition fades (p : Particle) : bool := Qle_bool (life p - 1) 0.

(** The first phase of [checkCollisions]: the loop over the bullets. *)
Definition bulletPhase {P : Math.Platform} (now : Z) (w : World) : World :=
  forDown (length (bulletsRef w)) (bulletVsAsteroids now) w.

(** The cells that the bullet phase does not write. *)
Definition shipSide (w : World) :=
  (shipRef w, powerupsRef w, shotsFiredRef w, waveCountRef w, spreadAmmoRef w,
   livesRef w, timeouts w).

(** An asteroid of a legal size class with the radius of its class. *)
Definition sizeOK (a : Asteroid) : Prop :=
  (1 <= sizeClass a <= 4)%Z /\ radius (a_obj a) = inject_Z (sizeClass a) * 18.

(** The books of the bullet phase between [w] and [w']: with [hits] the
    number of hits gained, as many bullets are gone, the score grew by 15 to
    100 per hit, the asteroid count moved by at most one per hit, and the
    cells of [shipSide] kept their values. *)
Definition bulletAccounting (w w' : World) : Prop :=
  let hits := (shotsHitRef w' - shotsHitRef w)%Z in
  (0 <= hits)%Z /\
  Z.of_nat (length (bulletsRef w')) = (Z.of_nat (length (bulletsRef w)) - hits)%Z /\
  (15 * hits <= scoreRef w' - scoreRef w <= 100 * hits)%Z /\
  (Z.of_nat (length (asteroidsRef w)) - hits
   <= Z.of_nat (length (asteroidsRef w'))
   <= Z.of_nat (length (asteroidsRef w)) + hits)%Z /\
  shipSide w' = shipSide w.

(** The ship touches a powerup of the given kind. *)
Definition touchesKind (s : Ship) (k : PowerupKind) (p : Powerup) : bool :=
  shipTouchesPowerup s p &&
  match kind p, k with
  | life_kind, life_kind | spread_kind, spread_kind => true
  | _, _ => false
  end.

(** The third phase of [checkCollisions] restricted to the first [n]
    powerups. *)
Definition collectBelow {P : Math.Platform} (now : Z) (n : nat) (w : World)
    : World :=
  forDown n (collectPowerup now) w.

(** The end of the destruction body, after the particles were emitted: the
    life is taken, the ammunition reset and the timer started. *)
Definition scheduleDeath (width height : Q) (w2 : World) : World :=
  let w3 := set_livesRef w2 (livesRef w2 - 1) in
  let w4 := set_spreadAmmoRef w3 0 in
  if (livesRef w4 <=? 0)%Z
  then set_timeouts w4 (timeouts w4 ++ [(1000%Z, gameOverCallback)])
  else set_timeouts w4
         (timeouts w4 ++ [(2000%Z, resetShipCallback width height)]).

Definition markDestroyed (w : World) : World :=
  set_shipRef w
    (mkShip (set_destroyed (s_obj (shipRef w)) true) (thrusting (shipRef w))
       (invulnerable (shipRef w)) (rotationSpeed (shipRef w))).

(** What [spawnAsteroids] guarantees of an asteroid it creates: a legal size
    class with its radius, the largest class only above 5000 points, a
    position outside the safe zone around the center, and the asteroid tag. *)
Definition spawnedOK (currentScore : Z) (width height : Q) (a : Asteroid)
    : Prop :=
  sizeOK a /\
  (sizeClass a = 4%Z -> (5000 < currentScore)%Z) /\
  hypot_lt (x (position (a_obj a)) - width / 2)
           (y (position (a_obj a)) - height / 2) 150 = false /\
  type (a_obj a) = T_asteroid /\ destroyed (a_obj a) = None.

(** The ship sits at the center of the world with the radius of a ship. *)
Definition shipAtCenter (width height : Q) (s : Ship) : Prop :=
  position (s_obj s) = mkPoint (width / 2) (height / 2) /\
  radius (s_obj s) = SHIP_SIZE.

(** The rotation of the ship after the turn keys, and its velocity after the
    thrust key and before the speed cap, as [handleInput] computes them. *)
Definition steered (w : World) : Q :=
  let r := rotation (s_obj (shipRef w)) in
  let r1 := if keys w "ArrowLeft" then r - ROTATION_SPEED else r in
  if keys w "ArrowRight" then r1 + ROTATION_SPEED else r1.

Definition thrusted {P : Math.Platform} (w : World) : Velocity :=
  let v0 := velocity (s_obj (shipRef w)) in
  if keys w "ArrowUp"
  then mkPoint (x v0 + Math.cos (steered w) * THRUST)
               (y v0 + Math.sin (steered w) * THRUST)
  else v0.

(** The keys after [code] went down. *)
Definition keyDown (code : string) (held : string -> bool) : string -> bool :=
  fun k => if String.eqb k code then true else held k.

(** ** Further sample data *)

(** A rational stand-in for [Math.hypot]: the integer square root of the
    numerator over the denominator, exact on perfect squares. *)
Definition sampleHypot : HypotPrimitive := {|
  hypotValue := fun a b =>
    let q := a * a + b * b in
    inject_Z (Z.sqrt (Qnum q * Zpos (Qden q))) / inject_Z (Zpos (Qden q))
|}.

(** A ship coasting at speed 10, above the cap, with no key held. *)
Definition speedingWorld : World :=
  sampleWorld
    (mkShip (mkGameObject id_player (mkPoint 400 300) (mkPoint 6 8) 0
               SHIP_SIZE T_ship None None)
            false 0 0)
    [sampleAsteroid 1 (mkPoint 100 100) (mkPoint 0 0)] [] [] 0 1 0 3.

(** Three hits out of eight shots. *)
Definition marksmanWorld : World :=
  set_shotsFiredRef (set_shotsHitRef hitWorld 3) 8.

(** An asteroid of the largest class in a corner of the world. *)
Definition cornerAsteroid : Asteroid :=
  sampleAsteroid 4 (mkPoint 80 540) (mkPoint 0 0).

(** * Properties *)

#[global] Arguments hypot_lt : simpl never.

(** ** Comparisons *)

Lemma Qltb_iff (a b : Q) : Qltb a b = true <-> a < b.
Proof.
  unfold Qltb. rewrite negb_true_iff.
  split; intro H.
  - apply Qnot_le_lt. intro Hle. apply Qle_bool_iff in Hle. congruence.
  - destruct (Qle_bool b a) eqn:E; [|reflexivity].
    apply Qle_bool_iff in E. exfalso. apply (Qlt_not_le _ _ H E).
Qed.

Lemma Qltb_false_iff (a b : Q) : Qltb a b = false <-> b <= a.
Proof.
  unfold Qltb. rewrite negb_false_iff. apply Qle_bool_iff.
Qed.

Lemma hypot_lt_spec (dx dy r : Q) :
  hypot_lt dx dy r = true <-> (hypot dx dy < Q2R r)%R.
Proof.
  unfold hypot_lt, hypot.
  rewrite andb_true_iff, !Qltb_iff.
  set (s := (Q2R dx * Q2R dx + Q2R dy * Q2R dy)%R).
  assert (Hs : (0 <= s)%R) by (unfold s; nra).
  assert (Hsq : Q2R (dx * dx + dy * dy) = s)
    by (unfold s; rewrite Q2R_plus, !Q2R_mult; reflexivity).
  split.
  - intros [Hr Hlt].
    apply Qlt_Rlt in Hr, Hlt.
    rewrite Hsq, Q2R_mult in Hlt.
    replace (Q2R 0) with 0%R in Hr by (unfold Q2R; simpl; lra).
    rewrite <- (sqrt_square (Q2R r)) by lra.
    apply sqrt_lt_1_alt. lra.
  - intro H.
    assert (Hr : (0 < Q2R r)%R).
    { apply Rle_lt_trans with (sqrt s); [apply sqrt_pos | exact H]. }
    split.
    + apply Rlt_Qlt. replace (Q2R 0) with 0%R by (unfold Q2R; simpl; lra).
      exact Hr.
    + apply Rlt_Qlt. rewrite Hsq, Q2R_mult.
      rewrite <- (sqrt_square (Q2R r)) in H by lra.
      apply sqrt_lt_0_alt in H. exact H.
Qed.

(** ** The overlap tests *)

(** C1 (as amended): the ship-vs-asteroid test compares the distance between
    the centers with the sum of the radii minus 5, the ship-vs-powerup test
    with the sum of the radii, and the bullet-vs-asteroid test with the radius
    of the asteroid alone. *)
Theorem overlap_tests_distance (b : GameObject) (a : Asteroid) (s : Ship)
    (p : Powerup) :
  (bulletHitsAsteroid b a = true <->
   (centerDistance b (a_obj a) < Q2R (radius (a_obj a)))%R) /\
  (shipHitsAsteroid s a = true <->
   (centerDistance (s_obj s) (a_obj a)
    < Q2R (radius (a_obj a) + radius (s_obj s) - 5))%R) /\
  (shipTouchesPowerup s p = true <->
   (centerDistance (s_obj s) (pu_obj p)
    < Q2R (radius (pu_obj p) + radius (s_obj s)))%R).
Proof.
  unfold bulletHitsAsteroid, shipHitsAsteroid, shipTouchesPowerup,
    centerDistance.
  repeat split; intro H; apply hypot_lt_spec; exact H.
Qed.

(** C1 fails for bullets: a bullet of radius 2 whose center is 37 away from
    the center of an asteroid of radius 36 is closer than the sum of the two
    radii and is not judged colliding. *)
Lemma bullet_test_ignores_bullet_radius :
  ~ (bulletHitsAsteroid grazingBullet grazedAsteroid = true <->
     (centerDistance grazingBullet (a_obj grazedAsteroid)
      < Q2R (radius grazingBullet + radius (a_obj grazedAsteroid)))%R).
Proof.
  intros [_ H].
  assert (Hd : (centerDistance grazingBullet (a_obj grazedAsteroid)
                < Q2R (radius grazingBullet + radius (a_obj grazedAsteroid)))%R).
  { unfold centerDistance. apply hypot_lt_spec. vm_compute. reflexivity. }
  apply H in Hd. vm_compute in Hd. discriminate Hd.
Qed.

(** ** Loops *)

Lemma forUp_invariant {S : Type} (P : S -> Prop) (body : Z -> S -> S) :
  (forall i s, P s -> P (body i s)) ->
  forall n i s, P s -> P (forUp n i body s).
Proof.
  intros Hbody n. induction n as [|n IH]; intros i s Hs; simpl.
  - exact Hs.
  - apply IH, Hbody, Hs.
Qed.

Lemma forDown_invariant {S : Type} (P : S -> Prop) (body : nat -> S -> S) :
  (forall i s, P s -> P (body i s)) ->
  forall n s, P s -> P (forDown n body s).
Proof.
  intros Hbody n. induction n as [|n IH]; intros s Hs; simpl.
  - exact Hs.
  - apply IH, Hbody, Hs.
Qed.

Section Properties.

Context {platform : Math.Platform}.

(** ** Particles leave the gameplay state alone *)

Lemma sameGameplay_refl (w : World) : sameGameplay w w.
Proof. unfold sameGameplay. repeat split. Qed.

Lemma sameGameplay_trans (w1 w2 w3 : World) :
  sameGameplay w1 w2 -> sameGameplay w2 w3 -> sameGameplay w1 w3.
Proof.
  unfold sameGameplay. intros H12 H23.
  repeat match goal with H : _ /\ _ |- _ => destruct H end.
  repeat split; congruence.
Qed.

Lemma createParticle_sameGameplay now pos color i w :
  sameGameplay w (createParticle now pos color i w).
Proof. unfold sameGameplay, createParticle. cbn. repeat split. Qed.

Lemma createParticles_sameGameplay now pos count color w :
  sameGameplay w (createParticles now pos count color w).
Proof.
  unfold createParticles.
  apply (forUp_invariant (sameGameplay w)).
  - intros i s Hs. eapply sameGameplay_trans; [exact Hs|].
    apply createParticle_sameGameplay.
  - apply sameGameplay_refl.
Qed.

(** ** The physics step and a destroyed ship *)

(** C9: while the ship is destroyed the physics step leaves the ship as it
    is: position, velocity, rotation and the invulnerability counter keep
    their values. *)
Theorem updatePhysics_destroyed_ship_frozen (width height : Q) (w : World) :
  destroyed (s_obj (shipRef w)) = Some true ->
  shipRef (updatePhysics width height w) = shipRef w.
Proof.
  intro Hd. unfold updatePhysics. cbn.
  unfold updateShip, isDestroyed. rewrite Hd. reflexivity.
Qed.

(** ** Ship against asteroids *)

Lemma shipVsAsteroids_invulnerable now width height w :
  (0 < invulnerable (shipRef w))%Z ->
  shipVsAsteroids now width height w = w.
Proof.
  intro Hinv. unfold shipVsAsteroids.
  destruct (invulnerable (shipRef w) <=? 0)%Z eqn:Hle.
  - apply Z.leb_le in Hle. lia.
  - rewrite andb_false_r. reflexivity.
Qed.

(** C8: while the invulnerability counter is positive the ship-vs-asteroid
    phase changes nothing, whatever the asteroids are; in particular the
    lives are not decremented. *)
Theorem invulnerable_ship_keeps_lives (now : Z) (width height : Q) (w : World) :
  (0 < invulnerable (shipRef w))%Z ->
  shipVsAsteroids now width height w = w /\
  livesRef (shipVsAsteroids now width height w) = livesRef w.
Proof.
  intro Hinv.
  rewrite (shipVsAsteroids_invulnerable now width height w Hinv).
  split; reflexivity.
Qed.

Lemma destroyShip_effect now width height w :
  destroyed (s_obj (shipRef (destroyShip now width height w))) = Some true /\
  livesRef (destroyShip now width height w) = (livesRef w - 1)%Z /\
  spreadAmmoRef (destroyShip now width height w) = 0%Z /\
  asteroidsRef (destroyShip now width height w) = asteroidsRef w.
Proof.
  unfold destroyShip. cbv zeta.
  destruct (livesRef _ <=? 0)%Z; repeat split; reflexivity.
Qed.

Lemma shipScan_first_overlap now width height (l : list Asteroid) w :
  (exists a, In a l /\ shipHitsAsteroid (shipRef w) a = true) ->
  shipScan now width height l w = destroyShip now width height w.
Proof.
  induction l as [|a0 rest IH]; intros (a & Hin & Hhit).
  - destruct Hin.
  - simpl. destruct (shipHitsAsteroid (shipRef w) a0) eqn:E0; [reflexivity|].
    apply IH. destruct Hin as [-> | Hin]; [congruence|].
    exists a. split; assumption.
Qed.

(** C6: when the ship is neither destroyed nor invulnerable and overlaps some
    asteroid, the ship-vs-asteroid phase runs the destruction once, however
    many asteroids overlap: the ship is marked destroyed, one life is lost,
    the spread ammunition is reset to 0, and the asteroids are untouched. *)
Theorem ship_asteroid_first_overlap (now : Z) (width height : Q) (w : World) :
  isDestroyed (s_obj (shipRef w)) = false ->
  (invulnerable (shipRef w) <= 0)%Z ->
  (exists a, In a (asteroidsRef w) /\ shipHitsAsteroid (shipRef w) a = true) ->
  let w' := shipVsAsteroids now width height w in
  w' = destroyShip now width height w /\
  destroyed (s_obj (shipRef w')) = Some true /\
  livesRef w' = (livesRef w - 1)%Z /\
  spreadAmmoRef w' = 0%Z /\
  asteroidsRef w' = asteroidsRef w.
Proof.
  intros Hd Hinv Hex w'.
  assert (E : w' = destroyShip now width height w).
  { unfold w', shipVsAsteroids. rewrite Hd.
    apply Z.leb_le in Hinv. rewrite Hinv. cbn [negb andb].
    apply shipScan_first_overlap, Hex. }
  split; [exact E|]. rewrite E. apply destroyShip_effect.
Qed.

(** ** Removal from an array *)

(** What [arr.splice(i, 1)] leaves of an array that holds [a] at index [i]:
    the entries before [a] followed by the entries after it. *)
Lemma splice1_split {A : Type} (i : nat) (l : list A) (a : A) :
  nth_error l i = Some a ->
  exists pre suf,
    l = pre ++ a :: suf /\ length pre = i /\ splice1 i l = pre ++ suf.
Proof.
  intro H. destruct (nth_error_split l i H) as (pre & suf & E & Hlen).
  exists pre, suf. split; [exact E|]. split; [exact Hlen|].
  subst l i. clear H. unfold splice1.
  rewrite firstn_app, firstn_all, Nat.sub_diag. cbn [firstn].
  rewrite app_nil_r. f_equal.
  induction pre as [|h t IH]; [reflexivity | exact IH].
Qed.

(** ** Ship against powerups *)

Ltac frame_particles :=
  match goal with
  | |- context [createParticles ?n ?p ?c ?col ?w] =>
      let H := fresh "Hframe" in
      pose proof (createParticles_sameGameplay n p c col w) as H;
      unfold sameGameplay in H;
      destruct H as (?Hship & ?Hast & ?Hbul & ?Hpow & ?Hscore & ?Hfired
                     & ?Hhit & ?Hwave & ?Hammo & ?Hlives & ?Htime)
  end.

Lemma collectPowerup_touched (now : Z) (i : nat) (p : Powerup) (w : World) :
  nth_error (powerupsRef w) i = Some p ->
  shipTouchesPowerup (shipRef w) p = true ->
  let w' := collectPowerup now i w in
  powerupsRef w' = splice1 i (powerupsRef w) /\
  (kind p = life_kind ->
   ((livesRef w < 5)%Z -> livesRef w' = (livesRef w + 1)%Z) /\
   ((5 <= livesRef w)%Z -> livesRef w' = livesRef w) /\
   ((livesRef w <= 5)%Z -> (livesRef w' <= 5)%Z)) /\
  (kind p = spread_kind -> spreadAmmoRef w' = 50%Z).
Proof.
  intros Hnth Htouch w'. unfold w', collectPowerup.
  rewrite Hnth, Htouch.
  frame_particles. rewrite Hpow, Hlives, Hammo.
  destruct (kind p).
  - destruct (livesRef w <? 5)%Z eqn:E; cbn.
    + apply Z.ltb_lt in E.
      split; [reflexivity|]. split; [|intro; discriminate].
      intros _. repeat split; intros; lia.
    + apply Z.ltb_ge in E.
      split; [reflexivity|]. split; [|intro; discriminate].
      intros _. repeat split; intros; lia.
  - cbn. split; [reflexivity|]. split; [intro; discriminate|].
    intros _. reflexivity.
Qed.

(** C7: collecting the powerup [p] at index [i] removes it from the array:
    the powerups before [p] and the powerups after [p] are left, in order,
    and [p] is gone; a life powerup adds one life when the lives are below 5
    and none otherwise, so the lives never rise above 5; a spread powerup
    sets the spread ammunition to 50 whatever it was. *)
Theorem powerup_collection (now : Z) (i : nat) (p : Powerup) (w : World) :
  nth_error (powerupsRef w) i = Some p ->
  shipTouchesPowerup (shipRef w) p = true ->
  let w' := collectPowerup now i w in
  (exists pre suf,
     powerupsRef w = pre ++ p :: suf /\ length pre = i /\
     powerupsRef w' = pre ++ suf) /\
  (kind p = life_kind ->
   ((livesRef w < 5)%Z -> livesRef w' = (livesRef w + 1)%Z) /\
   ((5 <= livesRef w)%Z -> livesRef w' = livesRef w) /\
   ((livesRef w <= 5)%Z -> (livesRef w' <= 5)%Z)) /\
  (kind p = spread_kind -> spreadAmmoRef w' = 50%Z).
Proof.
  intros Hnth Htouch w'.
  destruct (collectPowerup_touched now i p w Hnth Htouch) as (Hp & Hrest).
  fold w' in Hp, Hrest.
  split; [|exact Hrest].
  destruct (splice1_split i (powerupsRef w) p Hnth) as (pre & suf & E & Hi & Hs).
  exists pre, suf. split; [exact E|]. split; [exact Hi|].
  rewrite Hp. exact Hs.
Qed.

(** ** Firing *)

Lemma Qplus_0_r_eq (q : Q) : q + 0 = q.
Proof.
  destruct q as [n d]. unfold Qplus. cbn.
  rewrite Z.mul_1_r, Z.add_0_r, Pos.mul_1_r. reflexivity.
Qed.

Lemma Qplus_opp_mult_eq (q p : Q) : q + -25 * p = q - 25 * p.
Proof.
  unfold Qminus. f_equal.
  destruct p as [n d]. unfold Qmult, Qopp. cbn [Qnum Qden].
  f_equal. lia.
Qed.

Lemma handleKeyDown_fire now w :
  isDestroyed (s_obj (shipRef w)) = false ->
  let w0 := set_keys w (fun k => if String.eqb k "Space" then true
                                 else keys w k) in
  let hasSpread := (0 <? spreadAmmoRef w)%Z in
  let w1 := fold_left (fun w angleOffset =>
                         makeBullet now hasSpread angleOffset w)
              (fireAngles hasSpread) w0 in
  handleKeyDown now PLAYING "Space" w =
  set_shotsFiredRef
    (if hasSpread then set_spreadAmmoRef w1 (spreadAmmoRef w1 - 1) else w1)
    (shotsFiredRef w + 1).
Proof.
  intros Hd. unfold handleKeyDown. cbn. rewrite Hd. cbn.
  destruct (0 <? spreadAmmoRef w)%Z; reflexivity.
Qed.

(** C5: a fire event while the ship is not destroyed appends one bullet
    aimed along the ship's rotation when the spread ammunition is 0; when it
    is [n > 0] it appends three bullets aimed at the rotation, 25 degrees
    below it and 25 degrees above it, and the ammunition becomes [n - 1].
    Every bullet starts at the ship's position. *)
Theorem fire_creates_bullets (now : Z) (w : World) :
  isDestroyed (s_obj (shipRef w)) = false ->
  let w' := handleKeyDown now PLAYING "Space" w in
  let rot := rotation (s_obj (shipRef w)) in
  let here := position (s_obj (shipRef w)) in
  (spreadAmmoRef w = 0%Z ->
   exists b,
     bulletsRef w' = bulletsRef w ++ [b] /\
     position b = here /\ velocity b = aim rot /\
     spreadAmmoRef w' = 0%Z) /\
  (forall n, spreadAmmoRef w = n -> (0 < n)%Z ->
   exists b1 b2 b3,
     bulletsRef w' = bulletsRef w ++ [b1; b2; b3] /\
     position b1 = here /\ velocity b1 = aim rot /\
     position b2 = here /\ velocity b2 = aim (rot - degrees 25) /\
     position b3 = here /\ velocity b3 = aim (rot + degrees 25) /\
     spreadAmmoRef w' = (n - 1)%Z).
Proof.
  intros Hd w' rot here. unfold w'.
  rewrite (handleKeyDown_fire now w Hd). cbv zeta.
  split.
  - intro H0. rewrite H0. cbn.
    eexists. split; [reflexivity|]. cbn.
    repeat split; try assumption.
    unfold aim. fold rot. rewrite Qplus_0_r_eq. reflexivity.
  - intros n Hn Hpos.
    assert (E : (0 <? spreadAmmoRef w)%Z = true) by (apply Z.ltb_lt; lia).
    rewrite E. cbn. rewrite <- !app_assoc. cbn.
    do 3 eexists. split; [reflexivity|]. cbn.
    fold rot. unfold aim, degrees.
    rewrite Qplus_0_r_eq, Qplus_opp_mult_eq.
    repeat split; try reflexivity. rewrite Hn. reflexivity.
Qed.

End Properties.

(** ** Wrapping *)

Lemma wrap_closed_range (p bound : Q) :
  - bound <= p <= 2 * bound -> 0 <= wrap p bound <= bound.
Proof.
  intros [Hlo Hhi]. unfold wrap.
  destruct (Qltb p 0) eqn:E1.
  - apply Qltb_iff in E1.
    destruct (Qltb bound (p + bound)) eqn:E2.
    + apply Qltb_iff in E2. lra.
    + apply Qltb_false_iff in E2. lra.
  - apply Qltb_false_iff in E1.
    destruct (Qltb bound p) eqn:E2.
    + apply Qltb_iff in E2. lra.
    + apply Qltb_false_iff in E2. lra.
Qed.

Lemma moveAndWrap_inBox (width height : Q) (o : GameObject) :
  insideAndSlow width height o ->
  inBox width height (position (moveAndWrap width height o)).
Proof.
  intros [[Hx Hy] [Hvx Hvy]]. unfold moveAndWrap, inBox. cbn.
  split; apply wrap_closed_range; lra.
Qed.

Lemma updateShip_inBox (width height : Q) (s : Ship) :
  insideAndSlow width height (s_obj s) ->
  inBox width height (position (s_obj (updateShip width height s))).
Proof.
  intros H. unfold updateShip.
  destruct (isDestroyed (s_obj s)); cbn.
  - apply H.
  - destruct H as [[Hx Hy] [Hvx Hvy]]. unfold inBox. cbn.
    split; apply wrap_closed_range; lra.
Qed.

(** C2 (as amended): when the ship and the asteroids start a physics step
    inside the closed box [[0, width] x [0, height]] and no velocity component
    exceeds the size of the box, they end the step inside the closed box. *)
Theorem wrapped_positions_in_closed_box (width height : Q) (w : World) :
  insideAndSlow width height (s_obj (shipRef w)) ->
  Forall (fun a => insideAndSlow width height (a_obj a)) (asteroidsRef w) ->
  inBox width height (position (s_obj (shipRef (updatePhysics width height w))))
  /\ Forall (fun a => inBox width height (position (a_obj a)))
        (asteroidsRef (updatePhysics width height w)).
Proof.
  intros Hs Ha. unfold updatePhysics. cbn. split.
  - apply updateShip_inBox, Hs.
  - apply Forall_map. revert Ha. apply Forall_impl.
    intros a H. unfold updateAsteroid. cbn. apply moveAndWrap_inBox, H.
Qed.

(** C2 fails on the right edge: an asteroid at [x = 799] moving by [1] ends the
    step at [x = 800 = width], which [x > width] does not wrap; the position
    is outside the half-open box. *)
Lemma asteroid_rests_on_right_edge :
  ~ Forall (fun a => inHalfOpenBox 800 600 (position (a_obj a)))
      (asteroidsRef (updatePhysics 800 600 edgeWorld)).
Proof.
  intro H. apply Forall_inv in H.
  destruct H as [[_ Hx] _]. vm_compute in Hx. discriminate Hx.
Qed.

(** ** Bullets against asteroids *)

Lemma splice1_app {A : Type} (j : nat) (l extra : list A) (a : A) :
  nth_error l j = Some a ->
  splice1 j (l ++ extra) = splice1 j l ++ extra.
Proof.
  intro Hnth.
  assert (Hlt : (j < length l)%nat)
    by (apply nth_error_Some; congruence).
  unfold splice1.
  rewrite firstn_app, skipn_app.
  replace (j - length l)%nat with 0%nat by lia.
  replace (S j - length l)%nat with 0%nat by lia.
  cbn. rewrite app_nil_r, app_assoc. reflexivity.
Qed.

Section Fragments.

Context {platform : Math.Platform}.

Lemma sameGameplay_bystanders (w w' : World) :
  sameGameplay w w' -> bystanders w' = bystanders w.
Proof.
  unfold sameGameplay, bystanders.
  intros (-> & _ & -> & -> & _ & -> & _ & -> & -> & -> & ->). reflexivity.
Qed.

Lemma splitVertices_sameGameplay r numVerts w :
  sameGameplay w (snd (splitVertices r numVerts w)).
Proof.
  unfold splitVertices.
  apply (forUp_invariant (fun s : list Point * World => sameGameplay w (snd s))).
  - intros i [vs w0] Hs. cbn in *.
    eapply sameGameplay_trans; [exact Hs|].
    unfold sameGameplay. cbn. repeat split.
  - apply sameGameplay_refl.
Qed.

Lemma splitChild_effect now a newSize k w :
  exists c,
    asteroidsRef (splitChild now a newSize k w) = asteroidsRef w ++ [c] /\
    sizeClass c = newSize /\
    position (a_obj c) = position (a_obj a) /\
    radius (a_obj c) = inject_Z newSize * 18 /\
    scoreRef (splitChild now a newSize k w) = scoreRef w /\
    shotsHitRef (splitChild now a newSize k w) = shotsHitRef w /\
    bystanders (splitChild now a newSize k w) = bystanders w.
Proof.
  unfold splitChild. cbn.
  pose proof (splitVertices_sameGameplay (inject_Z newSize * 18)
                (6 + Math.floor (Math.randomValue (randomCalls w) * 4))
                (set_randomCalls w (S (randomCalls w)))) as Hv.
  destruct (splitVertices _ _ _) as [vertices w2]. cbn in Hv.
  pose proof (sameGameplay_bystanders _ _ Hv) as Hb.
  destruct Hv as (_ & Ha & _ & _ & Hs & _ & Hh & _).
  cbn in *. eexists. rewrite Ha, Hs, Hh.
  split; [reflexivity|]. cbn. repeat split. exact Hb.
Qed.

Lemma hitAsteroid_effect now j a w :
  nth_error (asteroidsRef w) j = Some a ->
  exists children,
    asteroidsRef (hitAsteroid now j a w)
    = splice1 j (asteroidsRef w) ++ children /\
    Forall (fragmentOf a) children /\
    length children = (if (1 <? sizeClass a)%Z then 2 else 0)%nat /\
    scoreRef (hitAsteroid now j a w) = (scoreRef w + points (sizeClass a))%Z /\
    shotsHitRef (hitAsteroid now j a w) = (shotsHitRef w + 1)%Z /\
    bystanders (hitAsteroid now j a w) = bystanders w.
Proof.
  intro Hnth. unfold hitAsteroid. cbv zeta.
  pose proof (createParticles_sameGameplay now (position (a_obj a))
                (5 + sizeClass a * 2) "#00f3ff" w) as Hp.
  remember (createParticles now (position (a_obj a)) (5 + sizeClass a * 2)
              "#00f3ff" w) as w1 eqn:E1. clear E1.
  pose proof (sameGameplay_bystanders _ _ Hp) as Hb.
  destruct Hp as (_ & Ha & _ & _ & Hs & _ & Hh & _).
  destruct (1 <? sizeClass a)%Z.
  - cbn [forUp].
    set (w3 := set_scoreRef _ _).
    assert (E3 : asteroidsRef w3 = asteroidsRef w1 /\
                 scoreRef w3 = (scoreRef w1 + points (sizeClass a))%Z /\
                 shotsHitRef w3 = (shotsHitRef w1 + 1)%Z /\
                 bystanders w3 = bystanders w1)
      by (subst w3; repeat split).
    clearbody w3. destruct E3 as (Ha3 & Hs3 & Hh3 & Hb3).
    destruct (splitChild_effect now a (sizeClass a - 1) 0 w3)
      as (c0 & Ha0 & Hk0 & Hp0 & Hr0 & Hs0 & Hh0 & Hb0).
    remember (splitChild now a (sizeClass a - 1) 0 w3) as w4 eqn:E4. clear E4.
    destruct (splitChild_effect now a (sizeClass a - 1) (0 + 1) w4)
      as (c1 & Ha1 & Hk1 & Hp1 & Hr1 & Hs1 & Hh1 & Hb1).
    remember (splitChild now a (sizeClass a - 1) (0 + 1) w4) as w5 eqn:E5.
    clear E5.
    exists [c0; c1]. cbn.
    rewrite Ha1, Ha0, Hs1, Hs0, Hh1, Hh0, Ha3, Hs3, Hh3, Ha, Hs, Hh.
    split.
    { rewrite <- app_assoc. cbn. apply (splice1_app j _ _ a Hnth). }
    split; [repeat constructor; assumption|].
    split; [reflexivity|]. split; [reflexivity|]. split; [reflexivity|].
    unfold bystanders in *. cbn. congruence.
  - exists []. cbn. rewrite Ha, Hs, Hh, app_nil_r.
    split; [reflexivity|]. split; [constructor|].
    split; [reflexivity|]. split; [reflexivity|]. split; [reflexivity|].
    unfold bystanders in *. cbn. congruence.
Qed.

Lemma scanAsteroids_hit now b n w w' :
  scanAsteroids now b n w = (true, w') ->
  exists j a,
    (j < n)%nat /\ nth_error (asteroidsRef w) j = Some a /\
    bulletHitsAsteroid b a = true /\ w' = hitAsteroid now j a w.
Proof.
  induction n as [|j IH]; cbn; intro H.
  - discriminate H.
  - destruct (nth_error (asteroidsRef w) j) as [a|] eqn:Hnth.
    + destruct (bulletHitsAsteroid b a) eqn:Hhit.
      * exists j, a. inversion H. repeat split; auto.
      * destruct (IH H) as (j' & a' & Hlt & H'). exists j', a'.
        split; [lia | exact H'].
    + destruct (IH H) as (j' & a' & Hlt & H'). exists j', a'.
      split; [lia | exact H'].
Qed.

(** C3: every hit found by the scan of one bullet strikes an asteroid [a] of
    the array that the bullet overlaps; when its size class is [k], the score
    grows by 15, 20, 50 or 100 for [k] = 4, 3, 2 or 1, whatever it was; [a]
    is removed, so that the asteroids before it and the asteroids after it
    are left in order; and after them the array gains two asteroids of size
    class [k - 1] at the position of [a] when [k > 1], none when [k = 1]. *)
Theorem bullet_hit_resolution (now : Z) (b : GameObject) (w w' : World) :
  scanAsteroids now b (length (asteroidsRef w)) w = (true, w') ->
  exists pre a suf children,
    asteroidsRef w = pre ++ a :: suf /\
    bulletHitsAsteroid b a = true /\
    asteroidsRef w' = pre ++ suf ++ children /\
    Forall (fun c => sizeClass c = (sizeClass a - 1)%Z /\
                     position (a_obj c) = position (a_obj a)) children /\
    ((1 < sizeClass a)%Z -> length children = 2%nat) /\
    (sizeClass a = 1%Z -> length children = 0%nat) /\
    (sizeClass a = 4%Z -> scoreRef w' = (scoreRef w + 15)%Z) /\
    (sizeClass a = 3%Z -> scoreRef w' = (scoreRef w + 20)%Z) /\
    (sizeClass a = 2%Z -> scoreRef w' = (scoreRef w + 50)%Z) /\
    (sizeClass a = 1%Z -> scoreRef w' = (scoreRef w + 100)%Z).
Proof.
  intro Hscan.
  destruct (scanAsteroids_hit _ _ _ _ _ Hscan) as (j & a & _ & Hnth & Hhit & ->).
  destruct (hitAsteroid_effect now j a w Hnth)
    as (children & Ha & Hc & Hlen & Hs & _).
  destruct (splice1_split j (asteroidsRef w) a Hnth)
    as (pre & suf & E & _ & Hsplice).
  exists pre, a, suf, children.
  split; [exact E|]. split; [exact Hhit|].
  split; [rewrite Ha, Hsplice, app_assoc; reflexivity|].
  split.
  { revert Hc. apply Forall_impl. intros c (Hk & Hp & _). split; assumption. }
  split. { intro Hk. apply Z.ltb_lt in Hk. rewrite Hk in Hlen. exact Hlen. }
  split. { intro Hk. rewrite Hk in Hlen. exact Hlen. }
  rewrite Hs. repeat split; intro Hk; rewrite Hk; reflexivity.
Qed.

End Fragments.

(** ** Wave completion *)

Section Waves.

Context {platform : Math.Platform}.

Lemma drawPosition_step fuel width height w :
  drawPosition (S fuel) width height w =
  let w2 := set_randomCalls (set_randomCalls w (S (randomCalls w)))
              (S (S (randomCalls w))) in
  let px := Math.randomValue (randomCalls w) * width in
  let py := Math.randomValue (S (randomCalls w)) * height in
  if hypot_lt (px - width / 2) (py - height / 2) 150
  then drawPosition fuel width height w2
  else Some (mkPoint px py, w2).
Proof.
  cbn [drawPosition]. unfold bindO, lift, Math.random, retO. cbv zeta.
  destruct (hypot_lt
              (Math.randomValue (randomCalls w) * width - width / 2)
              (Math.randomValue (S (randomCalls w)) * height - height / 2)
              150) eqn:E; cbn; rewrite E; reflexivity.
Qed.

Lemma drawPosition_eventually width height k :
  forall w,
    outsideSafeZone width height (randomCalls w + 2 * k) ->
    exists p w',
      sameGameplay w w' /\
      forall fuel, (k < fuel)%nat ->
                   drawPosition fuel width height w = Some (p, w').
Proof.
  induction k as [|k IH]; intros w Hout.
  - replace (randomCalls w + 2 * 0)%nat with (randomCalls w) in Hout by lia.
    unfold outsideSafeZone in Hout.
    do 2 eexists. split; [|intros fuel Hf].
    2: { destruct fuel as [|fuel]; [lia|].
         rewrite drawPosition_step. cbv zeta. rewrite Hout. reflexivity. }
    unfold sameGameplay. cbn. repeat split.
  - destruct (hypot_lt
                (Math.randomValue (randomCalls w) * width - width / 2)
                (Math.randomValue (S (randomCalls w)) * height - height / 2)
                150) eqn:E.
    + destruct (IH (set_randomCalls (set_randomCalls w (S (randomCalls w)))
                      (S (S (randomCalls w))))) as (p & w' & Hsame & Hrun).
      { cbn [randomCalls set_randomCalls].
        replace (S (S (randomCalls w)) + 2 * k)%nat
          with (randomCalls w + 2 * S k)%nat by lia. exact Hout. }
      exists p, w'. split.
      * eapply sameGameplay_trans; [|exact Hsame].
        unfold sameGameplay. cbn. repeat split.
      * intros fuel Hf. destruct fuel as [|fuel]; [lia|].
        rewrite drawPosition_step. cbv zeta. rewrite E.
        apply Hrun. lia.
    + do 2 eexists. split; [|intros fuel Hf].
      2: { destruct fuel as [|fuel]; [lia|].
           rewrite drawPosition_step. cbv zeta. rewrite E. reflexivity. }
      unfold sameGameplay. cbn. repeat split.
Qed.

Lemma spawnVertices_sameGameplay radius numVerts w :
  sameGameplay w (snd (spawnVertices radius numVerts w)).
Proof.
  unfold spawnVertices.
  apply (forUp_invariant (fun s : list Point * World => sameGameplay w (snd s))).
  - intros i [vs w0] Hs. cbn in *.
    eapply sameGameplay_trans; [exact Hs|].
    unfold sameGameplay. cbn. repeat split.
  - apply sameGameplay_refl.
Qed.

Lemma spawnAsteroid_eventually now currentScore width height i w :
  escapesSafeZone width height ->
  exists a w' N,
    sameGameplay w w' /\
    forall fuel, (N <= fuel)%nat ->
      spawnAsteroid fuel now currentScore width height i w = Some (a, w').
Proof.
  intro Hesc.
  destruct (Hesc (S (randomCalls w))) as [k Hk].
  destruct (drawPosition_eventually width height k
              (set_randomCalls w (S (randomCalls w))) Hk)
    as (pos & w2 & Hsame2 & Hdraw).
  pose proof (spawnVertices_sameGameplay
                (inject_Z (drawSizeClass currentScore
                             (Math.randomValue (randomCalls w))) * 18)
                (8 + Math.floor (Math.randomValue (randomCalls w2) * 5))
                (set_randomCalls w2 (S (randomCalls w2)))) as Hv.
  destruct (spawnVertices _ _ _) as [vertices w4] eqn:Ev. cbn in Hv.
  do 2 eexists. exists (S k). split; [|intros fuel Hf].
  2: { unfold spawnAsteroid, bindO, lift, Math.random.
       rewrite (Hdraw fuel) by lia. rewrite Ev. reflexivity. }
  eapply sameGameplay_trans; [|eapply sameGameplay_trans; [exact Hsame2|]].
  - unfold sameGameplay. cbn. repeat split.
  - eapply sameGameplay_trans; [|eapply sameGameplay_trans; [exact Hv|]];
      unfold sameGameplay; cbn; repeat split.
Qed.

Lemma spawnLoop_eventually now currentScore width height n :
  escapesSafeZone width height ->
  forall i acc w,
  exists l w' N,
    length l = (length acc + n)%nat /\
    sameGameplay w w' /\
    forall fuel, (N <= fuel)%nat ->
      spawnLoop fuel now currentScore width height n i acc w = Some (l, w').
Proof.
  intro Hesc. induction n as [|n IH]; intros i acc w.
  - exists acc, w, 0%nat. split; [lia|]. split; [apply sameGameplay_refl|].
    intros fuel _. reflexivity.
  - destruct (spawnAsteroid_eventually now currentScore width height i w Hesc)
      as (a & w1 & N1 & Hsame1 & Hrun1).
    destruct (IH (i + 1)%Z (acc ++ [a]) w1)
      as (l & w' & N2 & Hlen & Hsame2 & Hrun2).
    exists l, w', (Nat.max N1 N2). split.
    { rewrite Hlen, length_app. cbn. lia. }
    split; [eapply sameGameplay_trans; eassumption|].
    intros fuel Hf. cbn [spawnLoop]. unfold bindO at 1.
    rewrite (Hrun1 fuel) by lia. apply Hrun2. lia.
Qed.

Lemma floor_score_div (score : Z) :
  Math.floor (inject_Z score / 800) = (score / 800)%Z.
Proof.
  unfold Math.floor. change (800 : Q) with (inject_Z 800).
  symmetry. apply Zdiv_Qdiv.
Qed.

(** In a world whose diagonal is shorter than 300 every candidate position
    lies inside the safe zone, whatever values in [[0, 1)] are drawn: the
    rejection loop rejects them all. *)
Lemma candidate_in_safe_zone (width height r1 r2 : Q) :
  0 <= r1 < 1 -> 0 <= r2 < 1 ->
  0 <= width -> 0 <= height ->
  width * width + height * height < 300 * 300 ->
  hypot_lt (r1 * width - width / 2) (r2 * height - height / 2) 150 = true.
Proof.
  intros [H1 H1'] [H2 H2'] Hw Hh Hsmall.
  unfold hypot_lt. apply andb_true_iff. split; [reflexivity|].
  apply Qltb_iff.
  assert (Ex : (r1 * width - width / 2) * (r1 * width - width / 2)
               == (1 # 4) * (width * width) - r1 * (1 - r1) * (width * width))
    by field.
  assert (Ey : (r2 * height - height / 2) * (r2 * height - height / 2)
               == (1 # 4) * (height * height) - r2 * (1 - r2) * (height * height))
    by field.
  rewrite Ex, Ey.
  assert (Hx : 0 <= r1 * (1 - r1) * (width * width)).
  { apply Qmult_le_0_compat; apply Qmult_le_0_compat; lra. }
  assert (Hy : 0 <= r2 * (1 - r2) * (height * height)).
  { apply Qmult_le_0_compat; apply Qmult_le_0_compat; lra. }
  lra.
Qed.

Lemma drawPosition_small_world (width height : Q) :
  (forall n, 0 <= Math.randomValue n < 1) ->
  0 <= width -> 0 <= height ->
  width * width + height * height < 300 * 300 ->
  forall fuel w, drawPosition fuel width height w = None.
Proof.
  intros Hr Hw Hh Hsmall fuel.
  induction fuel as [|fuel IH]; intro w; [reflexivity|].
  rewrite drawPosition_step. cbv zeta.
  rewrite (candidate_in_safe_zone width height _ _ (Hr (randomCalls w))
             (Hr (S (randomCalls w))) Hw Hh Hsmall).
  apply IH.
Qed.

(** There the wave check does not return, whatever the bound on the loop. *)
Lemma waveCheck_small_world (now : Z) (width height : Q) (w : World) :
  (forall n, 0 <= Math.randomValue n < 1) ->
  0 <= width -> 0 <= height ->
  width * width + height * height < 300 * 300 ->
  asteroidsRef w = [] ->
  (0 <= scoreRef w)%Z ->
  forall fuel, waveCheck fuel now PLAYING width height w = None.
Proof.
  intros Hr Hw Hh Hsmall Hempty Hscore fuel.
  unfold waveCheck. rewrite Hempty.
  cbn [length Nat.eqb GameState_eqb andb]. cbv zeta.
  unfold spawnAsteroids. rewrite floor_score_div.
  cbn [scoreRef set_waveCountRef].
  assert (Hpos : (0 <= scoreRef w / 800)%Z) by (apply Z.div_pos; lia).
  destruct (Z.to_nat (5 + scoreRef w / 800)) as [|n] eqn:En; [lia|].
  cbn [spawnLoop]. unfold bindO at 1.
  unfold spawnAsteroid, bindO, lift, Math.random. cbv beta iota.
  rewrite (drawPosition_small_world width height Hr Hw Hh Hsmall).
  reflexivity.
Qed.

(** C4: when the asteroid array is empty at the wave check while the game is
    being played, and the rejection loop of the spawner finds positions
    outside the safe zone, the check returns (for every large enough bound on
    the loop) with the wave counter incremented by 1 and exactly
    [5 + floor(score / 800)] asteroids; one life powerup is appended when the
    new wave counter is a multiple of 5, and none otherwise. *)
Theorem wave_completion (now : Z) (width height : Q) (w : World) :
  asteroidsRef w = [] ->
  (0 <= scoreRef w)%Z ->
  (0 <= waveCountRef w)%Z ->
  escapesSafeZone width height ->
  exists N w',
    (forall fuel, (N <= fuel)%nat ->
       waveCheck fuel now PLAYING width height w = Some w') /\
    waveCountRef w' = (waveCountRef w + 1)%Z /\
    Z.of_nat (length (asteroidsRef w')) = (5 + scoreRef w / 800)%Z /\
    ((5 | waveCountRef w + 1)%Z ->
     exists p, powerupsRef w' = powerupsRef w ++ [p] /\ kind p = life_kind) /\
    (~ (5 | waveCountRef w + 1)%Z -> powerupsRef w' = powerupsRef w).
Proof.
  intros Hempty Hscore Hwave Hesc.
  set (w1 := set_waveCountRef w (waveCountRef w + 1)).
  destruct (spawnLoop_eventually now (scoreRef w1) width height
              (Z.to_nat (5 + scoreRef w / 800)) Hesc 0%Z [] w1)
    as (l & w2 & N & Hlen & Hsame & Hrun).
  assert (Hpos : (0 <= scoreRef w / 800)%Z) by (apply Z.div_pos; lia).
  destruct Hsame as (_ & Ha2 & _ & Hp2 & _ & _ & _ & Hw2 & _).
  cbn in Ha2, Hp2, Hw2. cbn [length Nat.add] in Hlen.
  set (w3 := set_asteroidsRef w2 (asteroidsRef w2 ++ l)).
  assert (Hspawn : forall fuel, (N <= fuel)%nat ->
            spawnAsteroids fuel now (5 + Math.floor (inject_Z (scoreRef w1) / 800))
              width height w1 = Some w3).
  { intros fuel Hf. unfold spawnAsteroids.
    rewrite floor_score_div.
    change (scoreRef w1) with (scoreRef w) in Hrun |- *.
    rewrite (Hrun fuel Hf). reflexivity. }
  assert (Hcheck : forall fuel w',
            (N <= fuel)%nat ->
            (if (0 <? waveCountRef w3)%Z && (Z.rem (waveCountRef w3) 5 =? 0)%Z
             then Some (spawnPowerup now life_kind width height w3)
             else Some w3) = Some w' ->
            waveCheck fuel now PLAYING width height w = Some w').
  { intros fuel w' Hf Hw'. unfold waveCheck. rewrite Hempty. cbn [length Nat.eqb
      GameState_eqb andb]. cbv zeta. fold w1. rewrite (Hspawn fuel Hf).
    exact Hw'. }
  assert (Hw3 : waveCountRef w3 = (waveCountRef w + 1)%Z) by exact Hw2.
  assert (Hl3 : Z.of_nat (length (asteroidsRef w3)) = (5 + scoreRef w / 800)%Z).
  { subst w3. cbn [asteroidsRef set_asteroidsRef].
    rewrite Ha2, Hempty, app_nil_l, Hlen. cbn [length]. lia. }
  assert (Hp3 : powerupsRef w3 = powerupsRef w) by exact Hp2.
  destruct (Z.rem (waveCountRef w3) 5 =? 0)%Z eqn:Hrem.
  - apply Z.eqb_eq in Hrem. rewrite Hw3 in Hrem.
    apply Z.rem_divide in Hrem; [|lia].
    exists N, (spawnPowerup now life_kind width height w3).
    split.
    { intros fuel Hf. apply (Hcheck fuel _ Hf).
      replace (0 <? waveCountRef w3)%Z with true
        by (symmetry; apply Z.ltb_lt; lia).
      reflexivity. }
    split; [exact Hw3|]. split; [exact Hl3|].
    split; [|intro Hn; contradiction].
    intros _. unfold spawnPowerup. cbn. rewrite Hp2.
    eexists. split; reflexivity.
  - apply Z.eqb_neq in Hrem. rewrite Hw3 in Hrem.
    exists N, w3. split.
    { intros fuel Hf. apply (Hcheck fuel _ Hf).
      rewrite andb_false_r. reflexivity. }
    split; [exact Hw3|]. split; [exact Hl3|].
    split; [|intros _; exact Hp3].
    intro Hdiv. exfalso. apply Hrem. apply Z.rem_divide; [lia | exact Hdiv].
Qed.

End Waves.

(** ** One shot, several hits *)

Lemma nth_error_snoc_last {A : Type} (l : list A) (a : A) :
  nth_error (l ++ [a]) (length l) = Some a.
Proof.
  rewrite nth_error_app2 by lia. rewrite Nat.sub_diag. reflexivity.
Qed.

Lemma splice1_snoc_last {A : Type} (l : list A) (a : A) :
  splice1 (length l) (l ++ [a]) = l.
Proof.
  unfold splice1.
  rewrite firstn_app, firstn_all, Nat.sub_diag. cbn [firstn].
  rewrite skipn_all2 by (rewrite length_app; cbn; lia).
  rewrite !app_nil_r. reflexivity.
Qed.

Lemma assign_middle {A : Type} (pre suf : list A) (a v : A) :
  assign (length pre) v (pre ++ a :: suf) = pre ++ v :: suf.
Proof.
  induction pre as [|h t IH]; cbn; [reflexivity|]. rewrite IH. reflexivity.
Qed.

Lemma updateBullets_inside (width height : Q) (pre suf : list GameObject) :
  Forall (fun b => leavesBox width height b = false) pre ->
  forDown (length pre) (updateBullet width height) (pre ++ suf)
  = map movedBullet pre ++ suf.
Proof.
  revert suf. induction pre as [|b pre IH] using rev_ind; intros suf Hin.
  - reflexivity.
  - apply Forall_app in Hin. destruct Hin as [Hpre Hb].
    apply Forall_inv in Hb.
    rewrite length_app, Nat.add_1_r. cbn [forDown].
    rewrite <- app_assoc. cbn [app].
    unfold updateBullet at 2.
    rewrite nth_error_app2, Nat.sub_diag by lia. cbn [nth_error].
    unfold leavesBox in Hb. cbv zeta in Hb. rewrite Hb.
    rewrite assign_middle, (IH _ Hpre), map_app, <- app_assoc.
    reflexivity.
Qed.

Section Volley.

Context {platform : Math.Platform}.

Lemma bulletVsAsteroids_top_hit now bs b rest a w :
  bulletsRef w = bs ++ [b] ->
  asteroidsRef w = rest ++ [a] ->
  bulletHitsAsteroid b a = true ->
  let w' := bulletVsAsteroids now (length bs) w in
  bulletsRef w' = bs /\
  (exists children,
     asteroidsRef w' = rest ++ children /\
     Forall (fragmentOf a) children /\
     length children = (if (1 <? sizeClass a)%Z then 2 else 0)%nat) /\
  shotsHitRef w' = (shotsHitRef w + 1)%Z /\
  shotsFiredRef w' = shotsFiredRef w /\
  shipRef w' = shipRef w /\
  powerupsRef w' = powerupsRef w.
Proof.
  intros Hb Ha Hhit w'.
  assert (Hnth : nth_error (asteroidsRef w) (length rest) = Some a)
    by (rewrite Ha; apply nth_error_snoc_last).
  assert (E : w' = set_bulletsRef (hitAsteroid now (length rest) a w)
                     (splice1 (length bs)
                        (bulletsRef (hitAsteroid now (length rest) a w)))).
  { unfold w', bulletVsAsteroids.
    rewrite Hb, nth_error_snoc_last.
    replace (length (asteroidsRef w)) with (S (length rest))
      by (rewrite Ha, length_app; cbn; lia).
    cbn [scanAsteroids]. rewrite Hnth, Hhit. reflexivity. }
  destruct (hitAsteroid_effect now (length rest) a w Hnth)
    as (children & Hast & Hfrag & Hlen & _ & Hhits & Hby).
  unfold bystanders in Hby.
  assert (Hbul : bulletsRef (hitAsteroid now (length rest) a w) = bs ++ [b])
    by congruence.
  rewrite E.
  cbn [bulletsRef asteroidsRef shotsHitRef shotsFiredRef shipRef powerupsRef
       set_bulletsRef].
  rewrite Hbul, splice1_snoc_last.
  split; [reflexivity|]. split.
  { exists children. rewrite Hast, Ha, splice1_snoc_last.
    repeat split; assumption. }
  split; [exact Hhits|]. repeat split; congruence.
Qed.

(** Three bullets that overlap a size-2 asteroid at the end of the array and
    its two fragments score three hits in one collision pass. *)
Lemma volley_three_hits now gameState width height
    (w : World) (b1 b2 b3 : GameObject) (far M : Asteroid) :
  bulletsRef w = [b1; b2; b3] ->
  asteroidsRef w = [far; M] ->
  sizeClass M = 2%Z ->
  bulletHitsAsteroid b3 M = true ->
  (forall c, fragmentOf M c ->
             bulletHitsAsteroid b2 c = true /\ bulletHitsAsteroid b1 c = true) ->
  (0 < invulnerable (shipRef w))%Z ->
  powerupsRef w = [] ->
  exists w',
    (forall fuel, checkCollisions fuel now gameState width height w = Some w') /\
    shotsHitRef w' = (shotsHitRef w + 3)%Z /\
    shotsFiredRef w' = shotsFiredRef w.
Proof.
  intros Hbul Hast HM Hhit3 Hfrag Hinv Hpow.
  (* third bullet against the asteroid *)
  destruct (bulletVsAsteroids_top_hit now [b1; b2] b3 [far] M w Hbul Hast Hhit3)
    as (Hb_a & (cs & Ha_a & Hf_a & Hl_a) & Hh_a & Hs_a & Hship_a & Hp_a).
  cbn [length] in Hb_a, Ha_a, Hh_a, Hs_a, Hship_a, Hp_a.
  remember (bulletVsAsteroids now 2 w) as wa eqn:Ewa.
  rewrite HM in Hl_a. cbn in Hl_a.
  destruct cs as [|c0 [|c1 [|c2 cs]]]; try discriminate Hl_a.
  pose proof (Forall_inv Hf_a) as Hc0.
  pose proof (Forall_inv (Forall_inv_tail Hf_a)) as Hc1.
  assert (Hk0 : sizeClass c0 = 1%Z) by (destruct Hc0 as [-> _]; lia).
  assert (Hk1 : sizeClass c1 = 1%Z) by (destruct Hc1 as [-> _]; lia).
  (* second bullet against the last fragment *)
  destruct (bulletVsAsteroids_top_hit now [b1] b2 [far; c0] c1 wa Hb_a Ha_a
              (proj1 (Hfrag c1 Hc1)))
    as (Hb_b & (cs & Ha_b & _ & Hl_b) & Hh_b & Hs_b & Hship_b & Hp_b).
  cbn [length] in Hb_b, Ha_b, Hh_b, Hs_b, Hship_b, Hp_b.
  remember (bulletVsAsteroids now 1 wa) as wb eqn:Ewb.
  rewrite Hk1 in Hl_b. cbn in Hl_b.
  destruct cs; try discriminate Hl_b. clear Hl_b.
  (* first bullet against the other fragment *)
  destruct (bulletVsAsteroids_top_hit now [] b1 [far] c0 wb Hb_b Ha_b
              (proj2 (Hfrag c0 Hc0)))
    as (Hb_c & (cs & Ha_c & _ & Hl_c) & Hh_c & Hs_c & Hship_c & Hp_c).
  cbn [length] in Hb_c, Ha_c, Hh_c, Hs_c, Hship_c, Hp_c.
  remember (bulletVsAsteroids now 0 wb) as wc eqn:Ewc.
  rewrite Hk0 in Hl_c. cbn in Hl_c.
  destruct cs; try discriminate Hl_c. clear Hl_c.
  exists wc. split; [|split; [lia | congruence]].
  intro fuel. unfold checkCollisions. rewrite Hbul. cbn [length forDown].
  rewrite <- Ewa, <- Ewb, <- Ewc.
  (* the ship is invulnerable, no powerup, asteroids remain *)
  rewrite shipVsAsteroids_invulnerable by congruence.
  assert (Hpu : shipVsPowerups now wc = wc).
  { unfold shipVsPowerups.
    replace (powerupsRef wc) with (@nil Powerup) by congruence.
    destruct (negb _); reflexivity. }
  rewrite Hpu. unfold waveCheck. rewrite Ha_c. reflexivity.
Qed.

End Volley.

Lemma near_miss_is_hit (c s px py r : Q) :
  -1 <= c <= 1 -> -1 <= s <= 1 -> 18 <= r ->
  hypot_lt (px + c * 7 - px) (py + s * 7 - py) r = true.
Proof.
  intros Hc Hs Hr. unfold hypot_lt.
  apply andb_true_iff. split; apply Qltb_iff; [lra|].
  set (dx := px + c * 7 - px). set (dy := py + s * 7 - py).
  assert (Hdx : -7 <= dx <= 7) by (unfold dx; lra).
  assert (Hdy : -7 <= dy <= 7) by (unfold dy; lra).
  assert (Hx2 : dx * dx <= 49) by nra.
  assert (Hy2 : dy * dy <= 49) by nra.
  assert (Hr2 : 324 <= r * r) by nra.
  lra.
Qed.

Section VolleyRun.

Context {platform : Math.Platform}.

Hypothesis cos_range : forall a, -1 <= Math.cos a <= 1.
Hypothesis sin_range : forall a, -1 <= Math.sin a <= 1.

Lemma volley_fired :
  let w1 := handleKeyDown 0 PLAYING "Space" volleyWorld in
  bulletsRef w1 = [volleyBullet 0; volleyBullet (-25 * (Math.PI / 180));
                   volleyBullet (25 * (Math.PI / 180))] /\
  shotsFiredRef w1 = 1%Z /\ shotsHitRef w1 = 0%Z /\
  asteroidsRef w1 = asteroidsRef volleyWorld /\
  shipRef w1 = shipRef volleyWorld /\ powerupsRef w1 = [].
Proof.
  cbv zeta. rewrite handleKeyDown_fire by reflexivity.
  repeat split.
Qed.

Lemma volleyBullet_stays angleOffset :
  leavesBox 800 600 (volleyBullet angleOffset) = false.
Proof.
  unfold leavesBox, volleyBullet, aim, BULLET_SPEED. cbn [position velocity x y].
  pose proof (cos_range (0 + angleOffset)) as Hc.
  pose proof (sin_range (0 + angleOffset)) as Hs.
  rewrite !orb_false_iff. repeat split; apply Qltb_false_iff; lra.
Qed.

Lemma volleyBullet_hits angleOffset (a : Asteroid) :
  position (a_obj a) = mkPoint 400 300 ->
  18 <= radius (a_obj a) ->
  bulletHitsAsteroid (movedBullet (volleyBullet angleOffset)) a = true.
Proof.
  intros Hp Hr. unfold bulletHitsAsteroid. rewrite Hp.
  unfold movedBullet, volleyBullet, aim, BULLET_SPEED.
  cbn [position velocity x y set_position].
  apply near_miss_is_hit; [apply cos_range | apply sin_range | exact Hr].
Qed.

(** C10: a fire event adds exactly 1 to the shots-fired counter, also when
    the spread ammunition is positive and three bullets are created; and
    there is a run in which the hits counter exceeds the shots-fired counter:
    in [volleyWorld] one fire event followed by one frame leaves 1 shot fired
    and 3 hits. *)
Theorem one_shot_per_fire_event :
  (forall now w,
     isDestroyed (s_obj (shipRef w)) = false ->
     shotsFiredRef (handleKeyDown now PLAYING "Space" w)
     = (shotsFiredRef w + 1)%Z /\
     ((0 < spreadAmmoRef w)%Z ->
      length (bulletsRef (handleKeyDown now PLAYING "Space" w))
      = (length (bulletsRef w) + 3)%nat)) /\
  (shotsFiredRef volleyWorld = 0%Z /\ shotsHitRef volleyWorld = 0%Z /\
   exists w',
     (forall fuel,
        frame fuel 0 PLAYING 800 600
          (handleKeyDown 0 PLAYING "Space" volleyWorld) = Some w') /\
     shotsFiredRef w' = 1%Z /\ shotsHitRef w' = 3%Z /\
     (shotsFiredRef w' < shotsHitRef w')%Z).
Proof.
  split.
  - intros now w Hd. rewrite (handleKeyDown_fire now w Hd). cbv zeta.
    split.
    + destruct (0 <? spreadAmmoRef w)%Z; reflexivity.
    + intro Hpos. apply Z.ltb_lt in Hpos. rewrite Hpos. cbn.
      rewrite <- !app_assoc, length_app. reflexivity.
  - split; [reflexivity|]. split; [reflexivity|].
    destruct volley_fired as (Hb1 & Hf1 & Hh1 & Ha1 & Hs1 & Hp1).
    remember (handleKeyDown 0 PLAYING "Space" volleyWorld) as w1 eqn:E1.
    clear E1.
    set (w2 := updatePhysics 800 600 w1).
    assert (Hb2 : bulletsRef w2 = map movedBullet (bulletsRef w1)).
    { pose proof (updateBullets_inside 800 600 (bulletsRef w1) []) as H.
      rewrite !app_nil_r in H. apply H. rewrite Hb1.
      repeat constructor; apply volleyBullet_stays. }
    assert (Ha2 : asteroidsRef w2
                  = [sampleAsteroid 1 (mkPoint 100 100) (mkPoint 0 0);
                     sampleAsteroid 2 (mkPoint 400 300) (mkPoint 0 0)]).
    { unfold w2, updatePhysics. cbv zeta.
      cbn [asteroidsRef set_particlesRef set_powerupsRef set_asteroidsRef
           set_bulletsRef set_shipRef].
      rewrite Ha1. reflexivity. }
    assert (Hs2 : invulnerable (shipRef w2) = 59%Z).
    { unfold w2, updatePhysics. cbv zeta.
      cbn [shipRef set_particlesRef set_powerupsRef set_asteroidsRef
           set_bulletsRef set_shipRef].
      rewrite Hs1. reflexivity. }
    assert (Hp2 : powerupsRef w2 = []).
    { unfold w2, updatePhysics. cbv zeta.
      cbn [powerupsRef set_particlesRef set_powerupsRef set_asteroidsRef
           set_bulletsRef set_shipRef].
      rewrite Hp1. reflexivity. }
    assert (Hf2 : shotsFiredRef w2 = 1%Z) by exact Hf1.
    assert (Hh2 : shotsHitRef w2 = 0%Z) by exact Hh1.
    rewrite Hb1 in Hb2. cbn [map] in Hb2.
    destruct (volley_three_hits 0 PLAYING 800 600 w2 _ _ _ _ _ Hb2 Ha2)
      as (w' & Hw' & Hh' & Hf').
    + reflexivity.
    + apply volleyBullet_hits; [reflexivity | vm_compute; discriminate].
    + intros c (Hk & Hpos & Hrad).
      split; apply volleyBullet_hits;
        solve [ rewrite Hpos; reflexivity
              | rewrite Hrad; vm_compute; discriminate ].
    + rewrite Hs2. lia.
    + exact Hp2.
    + exists w'. split; [exact Hw'|].
      rewrite Hh', Hf', Hh2, Hf2. repeat split; lia.
Qed.

End VolleyRun.

(** ** The statements on sample worlds *)

Lemma clampUnit_range (q : Q) : -1 <= clampUnit q <= 1.
Proof.
  unfold clampUnit. split.
  - apply Q.le_max_l.
  - apply Q.max_lub; [discriminate | apply Q.le_min_l].
Qed.

Lemma sample_escapesSafeZone : escapesSafeZone (P := samplePlatform) 800 600.
Proof.
  intro n. exists 0%nat.
  replace (n + 2 * 0)%nat with n by lia.
  unfold outsideSafeZone. cbn [Math.randomValue samplePlatform].
  rewrite Nat.even_succ. unfold Nat.odd.
  destruct (Nat.even n); vm_compute; reflexivity.
Qed.

Lemma wrapped_positions_in_closed_box_witness :
  (insideAndSlow 800 600 (s_obj (shipRef edgeWorld)) /\
   Forall (fun a => insideAndSlow 800 600 (a_obj a)) (asteroidsRef edgeWorld))
  /\ (inBox 800 600
        (position (s_obj (shipRef (updatePhysics 800 600 edgeWorld))))
      /\ Forall (fun a => inBox 800 600 (position (a_obj a)))
            (asteroidsRef (updatePhysics 800 600 edgeWorld))).
Proof.
  assert (Hs : insideAndSlow 800 600 (s_obj (shipRef edgeWorld))).
  { unfold insideAndSlow, inBox, stepFits. cbn. lra. }
  assert (Ha : Forall (fun a => insideAndSlow 800 600 (a_obj a))
                 (asteroidsRef edgeWorld)).
  { repeat constructor; cbn; lra. }
  split; [split; assumption|].
  apply (wrapped_positions_in_closed_box 800 600 edgeWorld Hs Ha).
Defined.

Lemma bullet_hit_resolution_witness :
  let w' := snd (scanAsteroids (platform := samplePlatform) 0
                   (sampleBullet (mkPoint 610 210) (mkPoint 7 0)) 2 hitWorld) in
  exists pre a suf children,
    asteroidsRef hitWorld = pre ++ a :: suf /\
    bulletHitsAsteroid (sampleBullet (mkPoint 610 210) (mkPoint 7 0)) a = true /\
    asteroidsRef w' = pre ++ suf ++ children /\
    Forall (fun c => sizeClass c = (sizeClass a - 1)%Z /\
                     position (a_obj c) = position (a_obj a)) children /\
    ((1 < sizeClass a)%Z -> length children = 2%nat) /\
    (sizeClass a = 1%Z -> length children = 0%nat) /\
    (sizeClass a = 4%Z -> scoreRef w' = (scoreRef hitWorld + 15)%Z) /\
    (sizeClass a = 3%Z -> scoreRef w' = (scoreRef hitWorld + 20)%Z) /\
    (sizeClass a = 2%Z -> scoreRef w' = (scoreRef hitWorld + 50)%Z) /\
    (sizeClass a = 1%Z -> scoreRef w' = (scoreRef hitWorld + 100)%Z).
Proof.
  intro w'.
  apply (bullet_hit_resolution (platform := samplePlatform) 0
           (sampleBullet (mkPoint 610 210) (mkPoint 7 0)) hitWorld w').
  vm_compute. reflexivity.
Defined.

Lemma wave_completion_witness :
  exists N w',
    (forall fuel, (N <= fuel)%nat ->
       waveCheck (platform := samplePlatform) fuel 0 PLAYING 800 600
         clearedWorld = Some w') /\
    waveCountRef w' = (waveCountRef clearedWorld + 1)%Z /\
    Z.of_nat (length (asteroidsRef w')) = (5 + scoreRef clearedWorld / 800)%Z /\
    ((5 | waveCountRef clearedWorld + 1)%Z ->
     exists p, powerupsRef w' = powerupsRef clearedWorld ++ [p] /\
               kind p = life_kind) /\
    (~ (5 | waveCountRef clearedWorld + 1)%Z ->
     powerupsRef w' = powerupsRef clearedWorld).
Proof.
  apply (wave_completion (platform := samplePlatform) 0 800 600 clearedWorld).
  - reflexivity.
  - vm_compute. discriminate.
  - vm_compute. discriminate.
  - exact sample_escapesSafeZone.
Defined.

(** C4 as it is written does not hold of every world: in a world of
    200 x 200, with an empty asteroid array in the playing state, the wave
    check does not return, whatever the bound on the rejection loop, so no
    wave is spawned. *)
Lemma wave_check_hangs_in_small_world :
  asteroidsRef clearedWorld = [] /\
  forall fuel,
    waveCheck (platform := samplePlatform) fuel 0 PLAYING 200 200 clearedWorld
    = None.
Proof.
  split; [reflexivity|]. intro fuel.
  apply (waveCheck_small_world (platform := samplePlatform) 0 200 200
           clearedWorld).
  - intro n. cbn [Math.randomValue samplePlatform].
    destruct (Nat.even n); lra.
  - lra.
  - lra.
  - lra.
  - reflexivity.
  - cbn. lia.
Qed.

(** The condition on the rejection loop cannot be dropped: in a world of
    100 x 100 every candidate position lies in the safe zone and the wave
    check does not return, whatever the loop bound. *)
Lemma drawPosition_tiny_world (fuel : nat) (w : World) :
  drawPosition (platform := samplePlatform) fuel 100 100 w = None.
Proof.
  revert w. induction fuel as [|fuel IH]; intro w; [reflexivity|].
  rewrite drawPosition_step. cbv zeta.
  assert (E : hypot_lt
                (Math.randomValue (Platform := samplePlatform) (randomCalls w)
                 * 100 - 100 / 2)
                (Math.randomValue (Platform := samplePlatform)
                   (S (randomCalls w)) * 100 - 100 / 2) 150 = true).
  { cbn [Math.randomValue samplePlatform].
    rewrite Nat.even_succ. unfold Nat.odd.
    destruct (Nat.even (randomCalls w)); vm_compute; reflexivity. }
  rewrite E. apply IH.
Qed.

Lemma waveCheck_tiny_world (fuel : nat) :
  waveCheck (platform := samplePlatform) fuel 0 PLAYING 100 100 clearedWorld
  = None.
Proof.
  unfold waveCheck. cbn [clearedWorld sampleWorld asteroidsRef length Nat.eqb
                         GameState_eqb andb].
  cbv zeta. unfold spawnAsteroids.
  rewrite floor_score_div.
  change (Z.to_nat (5 + _)) with 7%nat.
  cbn [spawnLoop]. unfold bindO at 1.
  unfold spawnAsteroid, bindO, lift, Math.random. cbv beta iota.
  rewrite drawPosition_tiny_world. reflexivity.
Qed.

Lemma updatePhysics_destroyed_ship_frozen_witness :
  destroyed (s_obj (shipRef wreckWorld)) = Some true /\
  shipRef (updatePhysics 800 600 wreckWorld) = shipRef wreckWorld.
Proof.
  split; [reflexivity|].
  apply (updatePhysics_destroyed_ship_frozen 800 600 wreckWorld).
  reflexivity.
Defined.

Lemma invulnerable_ship_keeps_lives_witness :
  (0 < invulnerable (shipRef volleyWorld))%Z /\
  shipVsAsteroids (platform := samplePlatform) 0 800 600 volleyWorld
  = volleyWorld /\
  livesRef (shipVsAsteroids (platform := samplePlatform) 0 800 600 volleyWorld)
  = livesRef volleyWorld.
Proof.
  assert (H : (0 < invulnerable (shipRef volleyWorld))%Z) by (cbn; lia).
  split; [exact H|].
  apply (invulnerable_ship_keeps_lives (platform := samplePlatform)
           0 800 600 volleyWorld H).
Defined.

Lemma ship_asteroid_first_overlap_witness :
  let w' := shipVsAsteroids (platform := samplePlatform) 0 800 600 crashWorld in
  w' = destroyShip (platform := samplePlatform) 0 800 600 crashWorld /\
  destroyed (s_obj (shipRef w')) = Some true /\
  livesRef w' = (livesRef crashWorld - 1)%Z /\
  spreadAmmoRef w' = 0%Z /\
  asteroidsRef w' = asteroidsRef crashWorld.
Proof.
  apply (ship_asteroid_first_overlap (platform := samplePlatform)
           0 800 600 crashWorld).
  - reflexivity.
  - cbn. lia.
  - exists (sampleAsteroid 3 (mkPoint 400 330) (mkPoint 0 1)).
    split; [cbn; auto | vm_compute; reflexivity].
Defined.

Lemma powerup_collection_witness :
  let w' := collectPowerup (platform := samplePlatform) 0 0 pickupWorld in
  (exists pre suf,
     powerupsRef pickupWorld
     = pre ++ samplePowerup life_kind (mkPoint 405 300) :: suf /\
     length pre = 0%nat /\ powerupsRef w' = pre ++ suf) /\
  (kind (samplePowerup life_kind (mkPoint 405 300)) = life_kind ->
   ((livesRef pickupWorld < 5)%Z -> livesRef w' = (livesRef pickupWorld + 1)%Z)
   /\ ((5 <= livesRef pickupWorld)%Z -> livesRef w' = livesRef pickupWorld)
   /\ ((livesRef pickupWorld <= 5)%Z -> (livesRef w' <= 5)%Z)) /\
  (kind (samplePowerup life_kind (mkPoint 405 300)) = spread_kind ->
   spreadAmmoRef w' = 50%Z).
Proof.
  apply (powerup_collection (platform := samplePlatform) 0 0
           (samplePowerup life_kind (mkPoint 405 300)) pickupWorld).
  - reflexivity.
  - vm_compute. reflexivity.
Defined.

Lemma fire_creates_bullets_witness :
  isDestroyed (s_obj (shipRef volleyWorld)) = false /\
  exists b1 b2 b3,
    bulletsRef (handleKeyDown (platform := samplePlatform) 0 PLAYING "Space"
                  volleyWorld)
    = bulletsRef volleyWorld ++ [b1; b2; b3] /\
    spreadAmmoRef (handleKeyDown (platform := samplePlatform) 0 PLAYING "Space"
                     volleyWorld) = 49%Z.
Proof.
  assert (Hd : isDestroyed (s_obj (shipRef volleyWorld)) = false)
    by reflexivity.
  split; [exact Hd|].
  destruct (fire_creates_bullets (platform := samplePlatform) 0 volleyWorld Hd)
    as [_ Hspread].
  destruct (Hspread 50%Z eq_refl eq_refl)
    as (b1 & b2 & b3 & Hb & _ & _ & _ & _ & _ & _ & Hammo).
  exists b1, b2, b3. split; [exact Hb | exact Hammo].
Defined.

Lemma one_shot_per_fire_event_witness :
  (forall a, -1 <= Math.cos (Platform := samplePlatform) a <= 1) /\
  (forall a, -1 <= Math.sin (Platform := samplePlatform) a <= 1) /\
  exists w',
    (forall fuel,
       frame (P := samplePlatform) fuel 0 PLAYING 800 600
         (handleKeyDown (platform := samplePlatform) 0 PLAYING "Space"
            volleyWorld) = Some w') /\
    shotsFiredRef w' = 1%Z /\ shotsHitRef w' = 3%Z /\
    (shotsFiredRef w' < shotsHitRef w')%Z.
Proof.
  assert (Hc : forall a, -1 <= Math.cos (Platform := samplePlatform) a <= 1)
    by (intro a; apply clampUnit_range).
  assert (Hs : forall a, -1 <= Math.sin (Platform := samplePlatform) a <= 1)
    by (intro a; apply clampUnit_range).
  split; [exact Hc|]. split; [exact Hs|].
  destruct (one_shot_per_fire_event (platform := samplePlatform) Hc Hs)
    as (_ & _ & _ & Hrun).
  exact Hrun.
Defined.

(** * Further properties of the engine *)

(** ** Backward sweeps that remove while they iterate *)

Lemma splice1_middle {A : Type} (pre suf : list A) (a : A) :
  splice1 (length pre) (pre ++ a :: suf) = pre ++ suf.
Proof.
  unfold splice1.
  rewrite firstn_app, firstn_all, Nat.sub_diag. cbn [firstn].
  rewrite app_nil_r. f_equal.
  induction pre as [|h t IH]; [reflexivity | exact IH].
Qed.

Lemma nth_error_middle_eq {A : Type} (pre suf : list A) (a : A) :
  nth_error (pre ++ a :: suf) (length pre) = Some a.
Proof.
  rewrite nth_error_app2 by lia. rewrite Nat.sub_diag. reflexivity.
Qed.

Lemma sweep_filter_map {A : Type} (drop : A -> bool) (f : A -> A)
    (pre suf : list A) :
  forDown (length pre) (sweepStep drop f) (pre ++ suf)
  = map f (filter (fun a => negb (drop a)) pre) ++ suf.
Proof.
  revert suf. induction pre as [|a pre IH] using rev_ind; intro suf.
  - reflexivity.
  - rewrite length_app, Nat.add_1_r. cbn [forDown].
    rewrite <- app_assoc. cbn [app].
    unfold sweepStep at 2. rewrite nth_error_middle_eq.
    rewrite filter_app, map_app. cbn [filter].
    destruct (drop a); cbn [negb map].
    + rewrite splice1_middle, IH, app_nil_r. reflexivity.
    + rewrite assign_middle, IH, <- app_assoc. reflexivity.
Qed.

Lemma sweep_whole {A : Type} (drop : A -> bool) (f : A -> A) (l : list A) :
  forDown (length l) (sweepStep drop f) l
  = map f (filter (fun a => negb (drop a)) l).
Proof.
  pose proof (sweep_filter_map drop f l []) as H.
  rewrite !app_nil_r in H. exact H.
Qed.

(** ** The physics step on bullets, powerups and particles *)

(** The bullets that survive a physics step are the bullets whose new
    position is inside the closed box, moved by their velocity and kept in
    order: a bullet that leaves the box is removed in the same step, and the
    removals during the backward loop skip no bullet. *)
Theorem updatePhysics_bullets (width height : Q) (w : World) :
  bulletsRef (updatePhysics width height w)
  = map movedBullet
      (filter (fun b => negb (leavesBox width height b)) (bulletsRef w)).
Proof.
  unfold updatePhysics. cbn.
  apply (sweep_whole (leavesBox width height) movedBullet).
Qed.

(** After a physics step the powerups are those that had more than one frame
    left, each one frame older; no powerup is left with a lifetime of 0 or
    less. *)
Theorem updatePhysics_powerups (width height : Q) (w : World) :
  powerupsRef (updatePhysics width height w)
  = map agedPowerup (filter (fun p => negb (expires p)) (powerupsRef w)) /\
  Forall (fun p => (0 < lifeTime p)%Z)
         (powerupsRef (updatePhysics width height w)).
Proof.
  assert (E : powerupsRef (updatePhysics width height w)
              = map agedPowerup
                  (filter (fun p => negb (expires p)) (powerupsRef w))).
  { unfold updatePhysics. cbn. apply (sweep_whole expires agedPowerup). }
  split; [exact E|]. rewrite E.
  apply Forall_map, Forall_forall. intros p Hin.
  apply filter_In in Hin. destruct Hin as [_ Hp].
  unfold expires in Hp. apply negb_true_iff, Z.leb_gt in Hp. exact Hp.
Qed.

(** After a physics step the particles are those with more than one frame of
    life left, moved and one frame older; every particle left has a positive
    life. *)
Theorem updatePhysics_particles (width height : Q) (w : World) :
  particlesRef (updatePhysics width height w)
  = map agedParticle (filter (fun p => negb (fades p)) (particlesRef w)) /\
  Forall (fun p => 0 < life p) (particlesRef (updatePhysics width height w)).
Proof.
  assert (E : particlesRef (updatePhysics width height w)
              = map agedParticle
                  (filter (fun p => negb (fades p)) (particlesRef w))).
  { unfold updatePhysics. cbn. apply (sweep_whole fades agedParticle). }
  split; [exact E|]. rewrite E.
  apply Forall_map, Forall_forall. intros p Hin.
  apply filter_In in Hin. destruct Hin as [_ Hp].
  unfold fades in Hp. apply negb_true_iff in Hp.
  apply Qnot_le_lt. intro Hle. apply Qle_bool_iff in Hle.
  cbn [life agedParticle] in Hle. congruence.
Qed.

(** ** The bullet phase of the collision engine *)

Lemma splice1_length {A : Type} (i : nat) (l : list A) :
  (i < length l)%nat -> length (splice1 i l) = (length l - 1)%nat.
Proof.
  intro Hi. unfold splice1.
  rewrite length_app, length_firstn, length_skipn. lia.
Qed.

Lemma In_splice1 {A : Type} (i : nat) (l : list A) (a : A) :
  In a (splice1 i l) -> In a l.
Proof.
  unfold splice1. intro H. apply in_app_or in H.
  rewrite <- (firstn_skipn i l). apply in_or_app.
  destruct H as [H | H]; [left; exact H | right].
  replace (S i) with (1 + i)%nat in H by reflexivity.
  rewrite <- skipn_skipn in H.
  destruct (skipn i l) as [|h t]; [destruct H | right; exact H].
Qed.

Lemma points_range (k : Z) : (15 <= points k <= 100)%Z.
Proof.
  unfold points.
  destruct (k =? 4)%Z; [lia|]. destruct (k =? 3)%Z; [lia|].
  destruct (k =? 2)%Z; lia.
Qed.

Section BulletPhase.

Context {platform : Math.Platform}.

(** The scan of one bullet either finds no overlapping asteroid below index
    [n] and leaves the world as it is, or resolves the hit on the overlapping
    asteroid of highest index. *)
Lemma scanAsteroids_cases now b n w :
  (scanAsteroids now b n w = (false, w) /\
   forall j a, (j < n)%nat -> nth_error (asteroidsRef w) j = Some a ->
               bulletHitsAsteroid b a = false) \/
  (exists j a,
     (j < n)%nat /\ nth_error (asteroidsRef w) j = Some a /\
     bulletHitsAsteroid b a = true /\
     (forall j' a', (j < j' < n)%nat ->
                    nth_error (asteroidsRef w) j' = Some a' ->
                    bulletHitsAsteroid b a' = false) /\
     scanAsteroids now b n w = (true, hitAsteroid now j a w)).
Proof.
  induction n as [|n IH].
  - left. split; [reflexivity|]. intros j a Hj. lia.
  - cbn [scanAsteroids].
    destruct (nth_error (asteroidsRef w) n) as [a|] eqn:Hn.
    + destruct (bulletHitsAsteroid b a) eqn:Hhit.
      * right. exists n, a. repeat split; auto. intros j' a' Hj'. lia.
      * destruct IH as [[E Hmiss] | (j & a0 & Hj & Hnth & Hh & Hmiss & E)].
        -- left. split; [exact E|]. intros j a0 Hj Hnth.
           destruct (Nat.eq_dec j n) as [-> | Hne].
           ++ congruence.
           ++ apply (Hmiss j a0); [lia | exact Hnth].
        -- right. exists j, a0. repeat split; auto.
           intros j' a' Hj' Hnth'.
           destruct (Nat.eq_dec j' n) as [-> | Hne].
           ++ congruence.
           ++ apply (Hmiss j' a'); [lia | exact Hnth'].
    + destruct IH as [[E Hmiss] | (j & a0 & Hj & Hnth & Hh & Hmiss & E)].
      * left. split; [exact E|]. intros j a0 Hj Hnth.
        destruct (Nat.eq_dec j n) as [-> | Hne].
        -- congruence.
        -- apply (Hmiss j a0); [lia | exact Hnth].
      * right. exists j, a0. repeat split; auto.
        intros j' a' Hj' Hnth'.
        destruct (Nat.eq_dec j' n) as [-> | Hne].
        -- congruence.
        -- apply (Hmiss j' a'); [lia | exact Hnth'].
Qed.

(** One bullet: nothing changes, or one hit is booked. *)
Lemma bulletVsAsteroids_cases now i w :
  (i < length (bulletsRef w))%nat ->
  bulletVsAsteroids now i w = w \/
  (exists j a children,
     nth_error (asteroidsRef w) j = Some a /\
     asteroidsRef (bulletVsAsteroids now i w)
     = splice1 j (asteroidsRef w) ++ children /\
     Forall (fragmentOf a) children /\
     length children = (if (1 <? sizeClass a)%Z then 2 else 0)%nat /\
     scoreRef (bulletVsAsteroids now i w)
     = (scoreRef w + points (sizeClass a))%Z /\
     shotsHitRef (bulletVsAsteroids now i w) = (shotsHitRef w + 1)%Z /\
     bulletsRef (bulletVsAsteroids now i w) = splice1 i (bulletsRef w) /\
     shipSide (bulletVsAsteroids now i w) = shipSide w).
Proof.
  intro Hi. unfold bulletVsAsteroids.
  destruct (nth_error (bulletsRef w) i) as [b|] eqn:Hb; [|left; reflexivity].
  destruct (scanAsteroids_cases now b (length (asteroidsRef w)) w)
    as [[E _] | (j & a & _ & Hnth & _ & _ & E)]; rewrite E.
  - left. reflexivity.
  - right.
    destruct (hitAsteroid_effect now j a w Hnth)
      as (children & Hast & Hfrag & Hlen & Hscore & Hhits & Hby).
    exists j, a, children.
    cbn [asteroidsRef scoreRef shotsHitRef bulletsRef set_bulletsRef].
    unfold bystanders in Hby.
    assert (Hbul : bulletsRef (hitAsteroid now j a w) = bulletsRef w)
      by congruence.
    rewrite Hbul.
    repeat split; try assumption.
    unfold shipSide. cbn [shipRef powerupsRef shotsFiredRef waveCountRef
                          spreadAmmoRef livesRef timeouts set_bulletsRef].
    congruence.
Qed.

Lemma bulletAccounting_refl w : bulletAccounting w w.
Proof. unfold bulletAccounting. cbv zeta. repeat split; lia. Qed.

Lemma bulletAccounting_trans w1 w2 w3 :
  bulletAccounting w1 w2 -> bulletAccounting w2 w3 -> bulletAccounting w1 w3.
Proof.
  unfold bulletAccounting. cbv zeta.
  intros (H1 & H2 & H3 & H4 & H5) (H1' & H2' & H3' & H4' & H5').
  repeat split; try lia. congruence.
Qed.

Lemma bulletVsAsteroids_accounting now i w :
  (i < length (bulletsRef w))%nat ->
  bulletAccounting w (bulletVsAsteroids now i w) /\
  (i <= length (bulletsRef (bulletVsAsteroids now i w)))%nat /\
  (Forall sizeOK (asteroidsRef w) ->
   Forall sizeOK (asteroidsRef (bulletVsAsteroids now i w))).
Proof.
  intro Hi.
  destruct (bulletVsAsteroids_cases now i w Hi)
    as [E | (j & a & children & Hnth & Hast & Hfrag & Hlen & Hscore & Hhits
             & Hbul & Hside)].
  - rewrite E. split; [apply bulletAccounting_refl|]. split; [lia | auto].
  - assert (Hj : (j < length (asteroidsRef w))%nat)
      by (apply nth_error_Some; congruence).
    pose proof (points_range (sizeClass a)) as Hpts.
    split; [|split].
    + unfold bulletAccounting. cbv zeta.
      rewrite Hhits, Hscore, Hbul, Hast, Hside, length_app.
      rewrite !splice1_length by assumption.
      destruct (1 <? sizeClass a)%Z; rewrite Hlen; repeat split; lia.
    + rewrite Hbul, splice1_length by assumption. lia.
    + intro Hok. rewrite Hast. apply Forall_app. split.
      * apply Forall_forall. intros c Hc. apply In_splice1 in Hc.
        rewrite Forall_forall in Hok. apply Hok, Hc.
      * assert (Ha : sizeOK a).
        { rewrite Forall_forall in Hok. apply Hok.
          apply (nth_error_In _ _ Hnth). }
        destruct (1 <? sizeClass a)%Z eqn:Hk.
        -- apply Z.ltb_lt in Hk. revert Hfrag. apply Forall_impl.
           intros c (Hkc & _ & Hrc). destruct Ha as [Hrange _].
           split; [lia | rewrite Hrc, Hkc; reflexivity].
        -- destruct children; [constructor | discriminate Hlen].
Qed.

Lemma bulletLoop_accounting now k :
  forall w,
    (k <= length (bulletsRef w))%nat ->
    bulletAccounting w (forDown k (bulletVsAsteroids now) w) /\
    (Forall sizeOK (asteroidsRef w) ->
     Forall sizeOK (asteroidsRef (forDown k (bulletVsAsteroids now) w))).
Proof.
  induction k as [|k IH]; intros w Hk; cbn [forDown].
  - split; [apply bulletAccounting_refl | auto].
  - destruct (bulletVsAsteroids_accounting now k w) as (Hacc & Hlen & Hok);
      [lia|].
    destruct (IH (bulletVsAsteroids now k w) Hlen) as (Hacc' & Hok').
    split; [eapply bulletAccounting_trans; eassumption | auto].
Qed.

(** The books of the bullet phase: every hit removes one bullet, so the hits
    gained are at most the number of bullets; each hit is worth 15 to 100
    points, so the score never decreases; the asteroid count changes by one
    per hit at most; the ship, lives, ammunition, powerups and timers are
    not written. *)
Theorem bulletPhase_accounting (now : Z) (w : World) :
  bulletAccounting w (bulletPhase now w) /\
  (shotsHitRef (bulletPhase now w) - shotsHitRef w
   <= Z.of_nat (length (bulletsRef w)))%Z /\
  (scoreRef w <= scoreRef (bulletPhase now w))%Z.
Proof.
  destruct (bulletLoop_accounting now (length (bulletsRef w)) w (le_n _))
    as [Hacc _].
  fold (bulletPhase now w) in Hacc.
  split; [exact Hacc|].
  unfold bulletAccounting in Hacc. cbv zeta in Hacc.
  destruct Hacc as (H1 & H2 & H3 & _). lia.
Qed.

Lemma bulletPhase_sizes (now : Z) (w : World) :
  Forall sizeOK (asteroidsRef w) ->
  Forall sizeOK (asteroidsRef (bulletPhase now w)).
Proof.
  apply (bulletLoop_accounting now (length (bulletsRef w)) w (le_n _)).
Qed.

Lemma bulletVsAsteroids_last_overlap (now : Z) (i : nat) (b : GameObject)
    (w : World) :
  nth_error (bulletsRef w) i = Some b ->
  ((forall a, In a (asteroidsRef w) -> bulletHitsAsteroid b a = false) ->
   bulletVsAsteroids now i w = w) /\
  (forall j a,
     nth_error (asteroidsRef w) j = Some a ->
     bulletHitsAsteroid b a = true ->
     (forall j' a', (j < j')%nat -> nth_error (asteroidsRef w) j' = Some a' ->
                    bulletHitsAsteroid b a' = false) ->
     bulletVsAsteroids now i w
     = set_bulletsRef (hitAsteroid now j a w)
         (splice1 i (bulletsRef (hitAsteroid now j a w)))).
Proof.
  intro Hb. unfold bulletVsAsteroids. rewrite Hb.
  destruct (scanAsteroids_cases now b (length (asteroidsRef w)) w)
    as [[E Hmiss] | (j0 & a0 & Hj0 & Hnth0 & Hhit0 & Hlast0 & E)]; rewrite E.
  - split; [reflexivity|].
    intros j a Hnth Hhit _.
    assert (Hj : (j < length (asteroidsRef w))%nat)
      by (apply nth_error_Some; congruence).
    rewrite (Hmiss j a Hj Hnth) in Hhit. discriminate Hhit.
  - split.
    + intro Hnone. rewrite (Hnone a0 (nth_error_In _ _ Hnth0)) in Hhit0.
      discriminate Hhit0.
    + intros j a Hnth Hhit Hlast.
      assert (Hj : (j < length (asteroidsRef w))%nat)
        by (apply nth_error_Some; congruence).
      destruct (Nat.lt_trichotomy j j0) as [Hlt | [-> | Hgt]].
      * rewrite (Hlast j0 a0 Hlt Hnth0) in Hhit0. discriminate Hhit0.
      * replace a0 with a by congruence. reflexivity.
      * rewrite (Hlast0 j a (conj Hgt Hj) Hnth) in Hhit. discriminate Hhit.
Qed.

(** A bullet that overlaps no asteroid leaves the world as it is, and a
    bullet that hits strikes the overlapping asteroid that comes last in the
    array; the bullet is then gone: the bullets before it and the bullets
    after it are left, in order. *)
Theorem bullet_strikes_last_overlap (now : Z) (i : nat) (b : GameObject)
    (w : World) :
  nth_error (bulletsRef w) i = Some b ->
  exists pre suf,
    bulletsRef w = pre ++ b :: suf /\ length pre = i /\
    ((forall a, In a (asteroidsRef w) -> bulletHitsAsteroid b a = false) ->
     bulletVsAsteroids now i w = w) /\
    (forall j a,
       nth_error (asteroidsRef w) j = Some a ->
       bulletHitsAsteroid b a = true ->
       (forall j' a', (j < j')%nat ->
                      nth_error (asteroidsRef w) j' = Some a' ->
                      bulletHitsAsteroid b a' = false) ->
       bulletVsAsteroids now i w = set_bulletsRef (hitAsteroid now j a w)
                                     (pre ++ suf) /\
       bulletsRef (bulletVsAsteroids now i w) = pre ++ suf).
Proof.
  intro Hb.
  destruct (bulletVsAsteroids_last_overlap now i b w Hb) as [Hnone Hlast].
  destruct (splice1_split i (bulletsRef w) b Hb) as (pre & suf & E & Hi & Hs).
  exists pre, suf. split; [exact E|]. split; [exact Hi|].
  split; [exact Hnone|].
  intros j a Hnth Hhit Hhigher.
  destruct (hitAsteroid_effect now j a w Hnth) as (_ & _ & _ & _ & _ & _ & Hby).
  assert (Hbul : bulletsRef (hitAsteroid now j a w) = bulletsRef w)
    by (unfold bystanders in Hby; congruence).
  rewrite (Hlast j a Hnth Hhit Hhigher), Hbul, Hs.
  split; reflexivity.
Qed.

End BulletPhase.

(** ** The ship phases of the collision engine *)

Ltac particle_frame :=
  match goal with
  | |- context [createParticles ?n ?p ?c ?col ?w] =>
      let H := fresh "Hframe" in
      pose proof (createParticles_sameGameplay n p c col w) as H;
      unfold sameGameplay in H;
      destruct H as (?Hship & ?Hast & ?Hbul & ?Hpow & ?Hscore & ?Hfired
                     & ?Hhit & ?Hwave & ?Hammo & ?Hlives & ?Htime)
  end.

Section ShipPhases.

Context {platform : Math.Platform}.

Lemma shipScan_no_overlap now width height (l : list Asteroid) w :
  (forall a, In a l -> shipHitsAsteroid (shipRef w) a = false) ->
  shipScan now width height l w = w.
Proof.
  induction l as [|a rest IH]; intro Hmiss; cbn [shipScan]; [reflexivity|].
  rewrite (Hmiss a (or_introl eq_refl)).
  apply IH. intros a' Hin. apply Hmiss. right. exact Hin.
Qed.

(** The ship-vs-asteroid phase changes nothing while the ship is destroyed,
    and nothing when no asteroid overlaps the ship. *)
Theorem shipVsAsteroids_idle (now : Z) (width height : Q) (w : World) :
  isDestroyed (s_obj (shipRef w)) = true \/
  (forall a, In a (asteroidsRef w) -> shipHitsAsteroid (shipRef w) a = false) ->
  shipVsAsteroids now width height w = w.
Proof.
  intros [Hd | Hmiss]; unfold shipVsAsteroids.
  - rewrite Hd. reflexivity.
  - destruct (negb _ && _); [|reflexivity].
    apply shipScan_no_overlap, Hmiss.
Qed.

Lemma createParticle_particles now pos col i w :
  particlesRef (createParticle now pos col i w)
  = particlesRef w ++
    [mkParticle
       (mkGameObject (id_p now i) pos
          (mkPoint ((Math.randomValue (randomCalls w) - 0.5) * 4)
                   ((Math.randomValue (S (randomCalls w)) - 0.5) * 4))
          0 (Math.randomValue (S (S (randomCalls w))) * 2 + 1)
          T_particle None (Some col))
       (30 + Math.randomValue (S (S (S (randomCalls w)))) * 20) 50] /\
  randomCalls (createParticle now pos col i w) = (4 + randomCalls w)%nat.
Proof. split; reflexivity. Qed.

Lemma createParticles_loop now pos col n :
  forall i w,
  exists added,
    particlesRef (forUp n i (createParticle now pos col) w)
    = particlesRef w ++ added /\
    length added = n /\
    Forall (fun p => position (p_obj p) = pos /\
                     color (p_obj p) = Some col /\ maxLife p = 50) added /\
    randomCalls (forUp n i (createParticle now pos col) w)
    = (4 * n + randomCalls w)%nat.
Proof.
  induction n as [|n IH]; intros i w; cbn [forUp].
  - exists []. rewrite app_nil_r. repeat split. constructor.
  - destruct (createParticle_particles now pos col i w) as [Hp Hr].
    destruct (IH (i + 1)%Z (createParticle now pos col i w))
      as (added & Hadd & Hlen & Hall & Hrand).
    rewrite Hp, <- app_assoc in Hadd.
    eexists. split; [exact Hadd|]. split; [cbn; lia|].
    split; [|rewrite Hrand, Hr; lia].
    constructor; [repeat split | exact Hall].
Qed.

Lemma createParticles_length now pos count col w :
  length (particlesRef (createParticles now pos count col w))
  = (length (particlesRef w) + Z.to_nat count)%nat.
Proof.
  unfold createParticles.
  destruct (createParticles_loop now pos col (Z.to_nat count) 0%Z w)
    as (added & Hadd & Hlen & _).
  rewrite Hadd, length_app, Hlen. reflexivity.
Qed.


Lemma destroyShip_split now width height w :
  destroyShip now width height w
  = scheduleDeath width height
      (createParticles now (position (s_obj (shipRef w))) 20 "#ff00ff"
         (markDestroyed w)).
Proof.
  unfold destroyShip, scheduleDeath, markDestroyed. cbv zeta. reflexivity.
Qed.

Lemma scheduleDeath_effect width height w2 :
  timeouts (scheduleDeath width height w2)
  = timeouts w2 ++
    [if (livesRef w2 - 1 <=? 0)%Z then (1000%Z, gameOverCallback)
     else (2000%Z, resetShipCallback width height)] /\
  particlesRef (scheduleDeath width height w2) = particlesRef w2.
Proof.
  unfold scheduleDeath. cbn.
  destruct (livesRef w2 - 1 <=? 0)%Z; split; reflexivity.
Qed.

(** When the ship dies, exactly one timer is started: the game-over callback
    after 1000 ms when no life is left, the respawn after 2000 ms otherwise;
    20 particles are emitted. *)
Theorem death_starts_one_timer (now : Z) (width height : Q) (w : World) :
  isDestroyed (s_obj (shipRef w)) = false ->
  (invulnerable (shipRef w) <= 0)%Z ->
  (exists a, In a (asteroidsRef w) /\ shipHitsAsteroid (shipRef w) a = true) ->
  timeouts (shipVsAsteroids now width height w)
  = timeouts w ++
    [if (livesRef w - 1 <=? 0)%Z then (1000%Z, gameOverCallback)
     else (2000%Z, resetShipCallback width height)] /\
  length (particlesRef (shipVsAsteroids now width height w))
  = (length (particlesRef w) + 20)%nat.
Proof.
  intros Hd Hinv Hex.
  assert (E : shipVsAsteroids now width height w
              = destroyShip now width height w).
  { unfold shipVsAsteroids. rewrite Hd.
    apply Z.leb_le in Hinv. rewrite Hinv. cbn [negb andb].
    apply shipScan_first_overlap, Hex. }
  rewrite E, destroyShip_split.
  destruct (createParticles_sameGameplay now (position (s_obj (shipRef w)))
              20 "#ff00ff" (markDestroyed w))
    as (_ & _ & _ & _ & _ & _ & _ & _ & _ & Hl & Ht).
  destruct (scheduleDeath_effect width height
              (createParticles now (position (s_obj (shipRef w))) 20
                 "#ff00ff" (markDestroyed w))) as [Ht' Hp'].
  rewrite Ht', Hp', Hl, Ht, createParticles_length.
  split; reflexivity.
Qed.

(** *** Powerups *)

Lemma collectPowerup_at now pre a suf w :
  powerupsRef w = pre ++ a :: suf ->
  let w' := collectPowerup now (length pre) w in
  shipRef w' = shipRef w /\
  powerupsRef w'
  = (if shipTouchesPowerup (shipRef w) a then pre ++ suf else pre ++ a :: suf)
  /\
  livesRef w'
  = (if touchesKind (shipRef w) life_kind a && (livesRef w <? 5)%Z
     then livesRef w + 1 else livesRef w)%Z /\
  spreadAmmoRef w'
  = (if touchesKind (shipRef w) spread_kind a then SPREAD_AMMO_COUNT
     else spreadAmmoRef w) /\
  asteroidsRef w' = asteroidsRef w /\ bulletsRef w' = bulletsRef w /\
  scoreRef w' = scoreRef w /\ shotsHitRef w' = shotsHitRef w /\
  shotsFiredRef w' = shotsFiredRef w /\ waveCountRef w' = waveCountRef w /\
  timeouts w' = timeouts w.
Proof.
  intros Hp w'. unfold w', collectPowerup, touchesKind.
  rewrite Hp, nth_error_middle_eq.
  destruct (shipTouchesPowerup (shipRef w) a) eqn:Ht.
  - particle_frame.
    rewrite Hship, Hpow, Hlives, Hammo, Hast, Hbul, Hscore, Hhit, Hfired,
      Hwave, Htime.
    destruct (kind a); [destruct (livesRef w <? 5)%Z|];
      cbn; rewrite ?Hp, ?splice1_middle; repeat split; reflexivity.
  - cbn. rewrite Hp. repeat split; reflexivity.
Qed.

Lemma collectBelow_effect now pre :
  forall suf w,
    powerupsRef w = pre ++ suf ->
    let w' := collectBelow now (length pre) w in
    let s := shipRef w in
    let gained :=
      Z.of_nat (length (filter (touchesKind s life_kind) pre)) in
    shipRef w' = s /\
    powerupsRef w'
    = filter (fun p => negb (shipTouchesPowerup s p)) pre ++ suf /\
    livesRef w' = Z.max (livesRef w) (Z.min 5 (livesRef w + gained)) /\
    spreadAmmoRef w'
    = (if existsb (touchesKind s spread_kind) pre then SPREAD_AMMO_COUNT
       else spreadAmmoRef w) /\
    asteroidsRef w' = asteroidsRef w /\ bulletsRef w' = bulletsRef w /\
    scoreRef w' = scoreRef w /\ shotsHitRef w' = shotsHitRef w /\
    shotsFiredRef w' = shotsFiredRef w /\ waveCountRef w' = waveCountRef w /\
    timeouts w' = timeouts w.
Proof.
  induction pre as [|a pre IH] using rev_ind; intros suf w Hp; cbv zeta.
  - unfold collectBelow. cbn. rewrite Hp. repeat split. lia.
  - rewrite length_app, Nat.add_1_r. unfold collectBelow. cbn [forDown].
    rewrite <- app_assoc in Hp. cbn [app] in Hp.
    destruct (collectPowerup_at now pre a suf w Hp)
      as (Hs1 & Hp1 & Hl1 & Ha1 & Hrest1).
    remember (collectPowerup now (length pre) w) as w1 eqn:E1. clear E1.
    assert (Hp1' : exists suf', powerupsRef w1 = pre ++ suf' /\
              suf' = (if shipTouchesPowerup (shipRef w) a then suf
                      else a :: suf)).
    { eexists. split; [|reflexivity]. rewrite Hp1.
      destruct (shipTouchesPowerup (shipRef w) a); reflexivity. }
    destruct Hp1' as (suf' & Hp1' & Esuf).
    destruct (IH suf' w1 Hp1') as (Hs & Hp2 & Hl & Ha & Hrest).
    fold (collectBelow now (length pre) w1).
    remember (collectBelow now (length pre) w1) as w2 eqn:E2. clear E2.
    rewrite Hs1 in *.
    split; [exact Hs|].
    rewrite filter_app, existsb_app, filter_app, length_app. cbn [filter existsb].
    split; [|split; [|split]].
    + rewrite Hp2, Esuf, <- app_assoc.
      destruct (shipTouchesPowerup (shipRef w) a); reflexivity.
    + rewrite Hl, Hl1.
      destruct (touchesKind (shipRef w) life_kind a); cbn [andb length].
      * destruct (livesRef w <? 5)%Z eqn:E5;
          [apply Z.ltb_lt in E5 | apply Z.ltb_ge in E5]; lia.
      * cbn [length]. rewrite Nat.add_0_r. reflexivity.
    + rewrite Ha, Ha1, orb_false_r.
      destruct (existsb (touchesKind (shipRef w) spread_kind) pre);
        [reflexivity|].
      destruct (touchesKind (shipRef w) spread_kind a); reflexivity.
    + destruct Hrest as (? & ? & ? & ? & ? & ? & ?).
      destruct Hrest1 as (? & ? & ? & ? & ? & ? & ?).
      repeat split; congruence.
Qed.

(** The ship-vs-powerup phase: a destroyed ship collects nothing; otherwise
    every powerup the ship touches is collected in the same pass and the
    others stay in order, the lives grow by the number of life powerups
    collected but not beyond 5, and the spread ammunition is 50 when a
    spread powerup was collected and unchanged otherwise. *)
Theorem shipVsPowerups_collects_all (now : Z) (w : World) :
  (isDestroyed (s_obj (shipRef w)) = true -> shipVsPowerups now w = w) /\
  (isDestroyed (s_obj (shipRef w)) = false ->
   let w' := shipVsPowerups now w in
   let s := shipRef w in
   powerupsRef w'
   = filter (fun p => negb (shipTouchesPowerup s p)) (powerupsRef w) /\
   livesRef w'
   = Z.max (livesRef w)
       (Z.min 5 (livesRef w
                 + Z.of_nat (length (filter (touchesKind s life_kind)
                                       (powerupsRef w))))) /\
   spreadAmmoRef w'
   = (if existsb (touchesKind s spread_kind) (powerupsRef w) then 50%Z
      else spreadAmmoRef w) /\
   shipRef w' = s /\ asteroidsRef w' = asteroidsRef w /\
   scoreRef w' = scoreRef w /\ timeouts w' = timeouts w).
Proof.
  unfold shipVsPowerups. split; intro Hd; rewrite Hd; cbn [negb].
  - reflexivity.
  - cbv zeta.
    destruct (collectBelow_effect now (powerupsRef w) [] w
                (eq_sym (app_nil_r _)))
      as (Hs & Hp & Hl & Ha & Hast & _ & Hsc & _ & _ & _ & Ht).
    unfold collectBelow in *. rewrite app_nil_r in Hp.
    repeat split; assumption.
Qed.

Lemma waveCheck_idle (fuel : nat) (now : Z) (gameState : GameState)
    (width height : Q) (w : World) :
  asteroidsRef w <> [] \/ gameState <> PLAYING ->
  waveCheck fuel now gameState width height w = Some w.
Proof.
  intros [Hne | Hgs]; unfold waveCheck.
  - destruct (asteroidsRef w); [congruence | reflexivity].
  - destruct gameState; try reflexivity; try congruence;
      rewrite andb_false_r; reflexivity.
Qed.

End ShipPhases.

(** ** What the spawner creates *)

Lemma drawSizeClass_range (currentScore : Z) (rand : Q) :
  (1 <= drawSizeClass currentScore rand <= 4)%Z /\
  (drawSizeClass currentScore rand = 4%Z -> (5000 < currentScore)%Z).
Proof.
  unfold drawSizeClass.
  destruct (5000 <? currentScore)%Z eqn:E; cbn [andb].
  - apply Z.ltb_lt in E.
    destruct (Qltb rand 0.1); [split; [lia | auto]|].
    destruct (Qltb rand 0.25); [split; [lia | auto]|].
    destruct (Qltb rand 0.6); split; solve [lia | auto].
  - destruct (Qltb rand 0.25); [split; [lia | intro; discriminate]|].
    destruct (Qltb rand 0.6); split; solve [lia | intro; discriminate].
Qed.

Section Spawner.

Context {platform : Math.Platform}.

Lemma drawPosition_Some width height fuel :
  forall w p w',
    drawPosition fuel width height w = Some (p, w') ->
    hypot_lt (x p - width / 2) (y p - height / 2) 150 = false /\
    sameGameplay w w'.
Proof.
  induction fuel as [|fuel IH]; intros w p w' H.
  - discriminate H.
  - rewrite drawPosition_step in H. cbv zeta in H.
    destruct (hypot_lt _ _ 150) eqn:E.
    + destruct (IH _ _ _ H) as [Hout Hsame]. split; [exact Hout|].
      eapply sameGameplay_trans; [|exact Hsame].
      unfold sameGameplay. cbn. repeat split.
    + inversion H; subst. split; [exact E|].
      unfold sameGameplay. cbn. repeat split.
Qed.

Lemma spawnAsteroid_Some fuel now currentScore width height i w a w' :
  spawnAsteroid fuel now currentScore width height i w = Some (a, w') ->
  spawnedOK currentScore width height a /\ sameGameplay w w'.
Proof.
  unfold spawnAsteroid, bindO, lift, Math.random. cbv beta iota.
  destruct (drawPosition fuel width height _) as [[pos w2]|] eqn:Hdraw;
    [|discriminate].
  destruct (drawPosition_Some _ _ _ _ _ _ Hdraw) as [Hout Hsame2].
  pose proof (spawnVertices_sameGameplay
                (inject_Z (drawSizeClass currentScore
                             (Math.randomValue (randomCalls w))) * 18)
                (8 + Math.floor (Math.randomValue (randomCalls w2) * 5))
                (set_randomCalls w2 (S (randomCalls w2)))) as Hv.
  destruct (spawnVertices _ _ _) as [vertices w4]. cbn [snd] in Hv.
  unfold retO. intro H. inversion H; subst; clear H.
  destruct (drawSizeClass_range currentScore
              (Math.randomValue (randomCalls w))) as [Hrange H4].
  split.
  - unfold spawnedOK, sizeOK. cbn. repeat split; try lia; auto.
  - eapply sameGameplay_trans; [|eapply sameGameplay_trans; [exact Hsame2|]].
    + unfold sameGameplay. cbn. repeat split.
    + eapply sameGameplay_trans; [|eapply sameGameplay_trans; [exact Hv|]];
        unfold sameGameplay; cbn; repeat split.
Qed.

Lemma spawnLoop_Some fuel now currentScore width height n :
  forall i acc w l w',
    spawnLoop fuel now currentScore width height n i acc w = Some (l, w') ->
    sameGameplay w w' /\
    exists news,
      l = acc ++ news /\ length news = n /\
      Forall (spawnedOK currentScore width height) news.
Proof.
  induction n as [|n IH]; intros i acc w l w' H.
  - inversion H; subst. split; [apply sameGameplay_refl|].
    exists []. rewrite app_nil_r. repeat split. constructor.
  - cbn [spawnLoop] in H. unfold bindO at 1 in H.
    destruct (spawnAsteroid fuel now currentScore width height i w)
      as [[a w1]|] eqn:Ha; [|discriminate].
    destruct (spawnAsteroid_Some _ _ _ _ _ _ _ _ _ Ha) as [Hok Hsame1].
    destruct (IH _ _ _ _ _ H) as (Hsame2 & news & Hl & Hlen & Hall).
    split; [eapply sameGameplay_trans; eassumption|].
    exists (a :: news). rewrite Hl, <- app_assoc. cbn.
    repeat split; [lia | constructor; assumption].
Qed.

Lemma spawnAsteroids_Some fuel now count width height w w' :
  spawnAsteroids fuel now count width height w = Some w' ->
  exists news,
    asteroidsRef w' = asteroidsRef w ++ news /\
    length news = Z.to_nat count /\
    Forall (spawnedOK (scoreRef w) width height) news /\
    bystanders w' = bystanders w /\
    scoreRef w' = scoreRef w /\ shotsHitRef w' = shotsHitRef w.
Proof.
  unfold spawnAsteroids.
  destruct (spawnLoop _ _ _ _ _ _ _ _ _) as [[l w1]|] eqn:Hloop;
    [|discriminate].
  destruct (spawnLoop_Some _ _ _ _ _ _ _ _ _ _ _ Hloop)
    as (Hsame & news & Hl & Hlen & Hall).
  intro H. inversion H; subst; clear H. cbn [app] in *.
  pose proof (sameGameplay_bystanders _ _ Hsame) as Hb.
  destruct Hsame as (_ & Ha & _ & _ & Hs & _ & Hh & _).
  exists news. cbn. rewrite Ha.
  repeat split; try assumption.
Qed.

Lemma spawnAsteroids_eventually now count width height w :
  escapesSafeZone width height ->
  exists w' N,
    forall fuel, (N <= fuel)%nat ->
                 spawnAsteroids fuel now count width height w = Some w'.
Proof.
  intro Hesc.
  destruct (spawnLoop_eventually now (scoreRef w) width height
              (Z.to_nat count) Hesc 0%Z [] w)
    as (l & w1 & N & _ & _ & Hrun).
  exists (set_asteroidsRef w1 (asteroidsRef w1 ++ l)), N.
  intros fuel Hf. unfold spawnAsteroids. rewrite (Hrun fuel Hf). reflexivity.
Qed.

(** When the rejection loop finds positions outside the safe zone,
    [spawnAsteroids] returns for every large enough bound on the loop; it has
    appended exactly [count] asteroids to the array and kept the ones that
    were there; each new asteroid has a size class from 1 to 4 with radius 18
    times its class, is of the largest class only when the score is above
    5000, and lies outside the safe zone of radius 150 around the center of
    the world. *)
Theorem spawnAsteroids_spawned (now count : Z) (width height : Q) (w : World) :
  escapesSafeZone width height ->
  exists N w',
    (forall fuel, (N <= fuel)%nat ->
                  spawnAsteroids fuel now count width height w = Some w') /\
    exists news,
      asteroidsRef w' = asteroidsRef w ++ news /\
      length news = Z.to_nat count /\
      Forall (spawnedOK (scoreRef w) width height) news.
Proof.
  intro Hesc.
  destruct (spawnAsteroids_eventually now count width height w Hesc)
    as (w' & N & Hrun).
  exists N, w'. split; [exact Hrun|].
  destruct (spawnAsteroids_Some _ _ _ _ _ _ _ (Hrun N (le_n N)))
    as (news & Ha & Hlen & Hall & _).
  exists news. repeat split; assumption.
Qed.

End Spawner.

Lemma inject_Z_range (k : Z) :
  (1 <= k <= 4)%Z -> 1 <= inject_Z k <= 4.
Proof.
  intros [H1 H4]. split.
  - change 1 with (inject_Z 1). rewrite <- Zle_Qle. exact H1.
  - change 4 with (inject_Z 4). rewrite <- Zle_Qle. exact H4.
Qed.

(** The safe zone clears the collision distance of every size class with a
    ship of radius 15 at the center. *)
Lemma center_clearance (width height px py k : Q) :
  1 <= k <= 4 ->
  hypot_lt (px - width / 2) (py - height / 2) 150 = false ->
  hypot_lt (width / 2 - px) (height / 2 - py) (k * 18 + 15 - 5) = false.
Proof.
  intros [Hk1 Hk4] Hout. unfold hypot_lt in *.
  apply andb_false_iff in Hout.
  destruct Hout as [Hout | Hout]; [vm_compute in Hout; discriminate Hout|].
  apply Qltb_false_iff in Hout.
  apply andb_false_iff. right. apply Qltb_false_iff.
  assert (Hsq : (width / 2 - px) * (width / 2 - px)
                + (height / 2 - py) * (height / 2 - py)
                == (px - width / 2) * (px - width / 2)
                   + (py - height / 2) * (py - height / 2)) by ring.
  rewrite Hsq.
  assert (Hr2 : (k * 18 + 15 - 5) * (k * 18 + 15 - 5) <= 82 * 82) by nra.
  lra.
Qed.

(** An asteroid created by the spawner never overlaps a ship that sits at the
    center of the world: the safe zone is wider than the largest asteroid
    and the ship together. *)
Theorem spawned_asteroid_misses_centered_ship (currentScore : Z)
    (width height : Q) (s : Ship) (a : Asteroid) :
  shipAtCenter width height s ->
  spawnedOK currentScore width height a ->
  shipHitsAsteroid s a = false.
Proof.
  intros [Hpos Hrad] ([Hk Hr] & _ & Hout & _).
  unfold shipHitsAsteroid. rewrite Hpos, Hrad, Hr. cbn [x y].
  apply center_clearance; [apply inject_Z_range, Hk | exact Hout].
Qed.

(** ** One iteration of the loop *)

Lemma updateAsteroid_sizeOK width height a :
  sizeOK a -> sizeOK (updateAsteroid width height a).
Proof. intro H. exact H. Qed.

Lemma spawnedOK_sizeOK currentScore width height a :
  spawnedOK currentScore width height a -> sizeOK a.
Proof. intros [H _]. exact H. Qed.

Lemma updateShip_alive width height s :
  isDestroyed (s_obj s) = false ->
  isDestroyed (s_obj (updateShip width height s)) = false /\
  invulnerable (updateShip width height s)
  = (if (0 <? invulnerable s)%Z then invulnerable s - 1 else invulnerable s)%Z.
Proof.
  intro H. unfold updateShip. rewrite H. cbn [negb].
  split; [exact H | reflexivity].
Qed.

Section LoopStep.

Context {platform : Math.Platform} {hypotPrimitive : HypotPrimitive}.

Lemma shipScan_cases now width height l w :
  shipScan now width height l w = w \/
  shipScan now width height l w = destroyShip now width height w.
Proof.
  induction l as [|a rest IH]; cbn [shipScan]; [left; reflexivity|].
  destruct (shipHitsAsteroid (shipRef w) a); [right; reflexivity | exact IH].
Qed.

Lemma shipVsAsteroids_asteroids now width height w :
  asteroidsRef (shipVsAsteroids now width height w) = asteroidsRef w.
Proof.
  unfold shipVsAsteroids. destruct (negb _ && _); [|reflexivity].
  destruct (shipScan_cases now width height (asteroidsRef w) w) as [E | E];
    rewrite E; [reflexivity | apply destroyShip_effect].
Qed.

Lemma shipVsAsteroids_safe now width height w :
  isDestroyed (s_obj (shipRef w)) = true \/ (0 < invulnerable (shipRef w))%Z ->
  shipVsAsteroids now width height w = w.
Proof.
  intros [Hd | Hinv].
  - unfold shipVsAsteroids. rewrite Hd. reflexivity.
  - apply shipVsAsteroids_invulnerable, Hinv.
Qed.

Lemma shipVsPowerups_frame now w :
  shipRef (shipVsPowerups now w) = shipRef w /\
  asteroidsRef (shipVsPowerups now w) = asteroidsRef w /\
  timeouts (shipVsPowerups now w) = timeouts w /\
  (livesRef w <= livesRef (shipVsPowerups now w))%Z /\
  (isDestroyed (s_obj (shipRef w)) = true -> shipVsPowerups now w = w).
Proof.
  unfold shipVsPowerups.
  destruct (isDestroyed (s_obj (shipRef w))); cbn [negb].
  - repeat split; solve [reflexivity | lia].
  - destruct (collectBelow_effect now (powerupsRef w) [] w
                (eq_sym (app_nil_r _)))
      as (Hs & _ & Hl & _ & Hast & _ & _ & _ & _ & _ & Ht).
    unfold collectBelow in *.
    repeat split; try assumption; try (intro; discriminate).
    rewrite Hl. lia.
Qed.

Lemma waveCheck_Some fuel now gameState width height w w' :
  waveCheck fuel now gameState width height w = Some w' ->
  shipRef w' = shipRef w /\ livesRef w' = livesRef w /\
  timeouts w' = timeouts w /\ spreadAmmoRef w' = spreadAmmoRef w /\
  (Forall sizeOK (asteroidsRef w) -> Forall sizeOK (asteroidsRef w')).
Proof.
  unfold waveCheck.
  destruct ((length (asteroidsRef w) =? 0)%nat && _).
  - cbv zeta.
    destruct (spawnAsteroids _ _ _ _ _ _) as [w2|] eqn:Hspawn; [|discriminate].
    destruct (spawnAsteroids_Some _ _ _ _ _ _ _ Hspawn)
      as (news & Ha & _ & Hall & Hb & _).
    unfold bystanders in Hb. cbn in Hb, Ha.
    assert (Hsizes : Forall sizeOK (asteroidsRef w) ->
                     Forall sizeOK (asteroidsRef w2)).
    { intro Hok. rewrite Ha. apply Forall_app. split; [exact Hok|].
      revert Hall. apply Forall_impl. intro a. apply spawnedOK_sizeOK. }
    destruct (_ && _); intro H; inversion H; subst; clear H;
      unfold spawnPowerup; cbn; repeat split; try congruence; exact Hsizes.
  - intro H. inversion H; subst. repeat split; auto.
Qed.

Lemma checkCollisions_Some fuel now gameState width height w w' :
  checkCollisions fuel now gameState width height w = Some w' ->
  (Forall sizeOK (asteroidsRef w) -> Forall sizeOK (asteroidsRef w')) /\
  (isDestroyed (s_obj (shipRef w)) = true \/ (0 < invulnerable (shipRef w))%Z ->
   shipRef w' = shipRef w /\ (livesRef w <= livesRef w')%Z /\
   timeouts w' = timeouts w /\
   (isDestroyed (s_obj (shipRef w)) = true ->
    livesRef w' = livesRef w /\ spreadAmmoRef w' = spreadAmmoRef w)).
Proof.
  unfold checkCollisions. cbv zeta.
  destruct (bulletLoop_accounting now (length (bulletsRef w)) w (le_n _))
    as [Hacc Hsizes1].
  remember (forDown (length (bulletsRef w)) (bulletVsAsteroids now) w)
    as w1 eqn:E1. clear E1.
  unfold bulletAccounting in Hacc. cbv zeta in Hacc.
  destruct Hacc as (_ & _ & _ & _ & Hside). unfold shipSide in Hside.
  pose proof (shipVsAsteroids_asteroids now width height w1) as Hast2.
  pose proof (shipVsAsteroids_safe now width height w1) as Hsafe2.
  remember (shipVsAsteroids now width height w1) as w2 eqn:E2. clear E2.
  destruct (shipVsPowerups_frame now w2) as (Hs3 & Hast3 & Ht3 & Hl3 & Hd3).
  remember (shipVsPowerups now w2) as w3 eqn:E3. clear E3.
  intro Hwave.
  destruct (waveCheck_Some _ _ _ _ _ _ _ Hwave)
    as (Hs4 & Hl4 & Ht4 & Ha4 & Hsizes4).
  split.
  - intro Hok. apply Hsizes4. rewrite Hast3, Hast2. apply Hsizes1, Hok.
  - intro Hsafe.
    assert (E : w2 = w1).
    { apply Hsafe2. destruct Hsafe as [Hd | Hinv]; [left | right]; congruence. }
    subst w2.
    assert (Hl1 : livesRef w1 = livesRef w) by congruence.
    assert (Hs1 : shipRef w1 = shipRef w) by congruence.
    assert (Ha1 : spreadAmmoRef w1 = spreadAmmoRef w) by congruence.
    assert (Ht1 : timeouts w1 = timeouts w) by congruence.
    split; [congruence|]. split; [lia|]. split; [congruence|].
    intro Hd. rewrite Hd3 in * by congruence. split; congruence.
Qed.

Lemma handleInput_frame w :
  isDestroyed (s_obj (shipRef (handleInput w)))
  = isDestroyed (s_obj (shipRef w)) /\
  invulnerable (shipRef (handleInput w)) = invulnerable (shipRef w) /\
  asteroidsRef (handleInput w) = asteroidsRef w /\
  livesRef (handleInput w) = livesRef w /\
  spreadAmmoRef (handleInput w) = spreadAmmoRef w /\
  timeouts (handleInput w) = timeouts w /\
  (isDestroyed (s_obj (shipRef w)) = true -> handleInput w = w).
Proof.
  unfold handleInput, isDestroyed. cbv zeta.
  destruct (destroyed (s_obj (shipRef w))) as [[|]|] eqn:E;
    cbn; rewrite ?E; repeat split; solve [reflexivity | intros; discriminate].
Qed.

Lemma updatePhysics_frame width height w :
  shipRef (updatePhysics width height w) = updateShip width height (shipRef w)
  /\ asteroidsRef (updatePhysics width height w)
     = map (updateAsteroid width height) (asteroidsRef w) /\
  livesRef (updatePhysics width height w) = livesRef w /\
  spreadAmmoRef (updatePhysics width height w) = spreadAmmoRef w /\
  timeouts (updatePhysics width height w) = timeouts w.
Proof. unfold updatePhysics. cbn. repeat split. Qed.

Lemma loop_playing fuel now width height w :
  loop fuel now PLAYING width height w
  = checkCollisions fuel now PLAYING width height
      (updatePhysics width height (handleInput w)).
Proof. reflexivity. Qed.

Lemma loops_S n fuel now gameState width height w :
  loops (S n) fuel now gameState width height w
  = match loop fuel now gameState width height w with
    | Some w1 => loops n fuel now gameState width height w1
    | None => None
    end.
Proof. reflexivity. Qed.

(** *** The iteration returns *)

Lemma waveCheck_eventually now gameState width height w :
  escapesSafeZone width height ->
  exists w' N,
    forall fuel, (N <= fuel)%nat ->
                 waveCheck fuel now gameState width height w = Some w'.
Proof.
  intro Hesc. unfold waveCheck.
  destruct ((length (asteroidsRef w) =? 0)%nat && GameState_eqb PLAYING gameState).
  - cbv zeta.
    destruct (spawnAsteroids_eventually now
                (5 + Math.floor
                       (inject_Z (scoreRef (set_waveCountRef w
                                              (waveCountRef w + 1))) / 800))
                width height (set_waveCountRef w (waveCountRef w + 1)) Hesc)
      as (w2 & N & Hrun).
    destruct ((0 <? waveCountRef w2)%Z && (Z.rem (waveCountRef w2) 5 =? 0)%Z)
      eqn:E.
    + exists (spawnPowerup now life_kind width height w2), N.
      intros fuel Hf. rewrite (Hrun fuel Hf), E. reflexivity.
    + exists w2, N. intros fuel Hf. rewrite (Hrun fuel Hf), E. reflexivity.
  - exists w, 0%nat. intros fuel _. reflexivity.
Qed.

Lemma loop_eventually now gameState width height w :
  escapesSafeZone width height ->
  exists w' N,
    forall fuel, (N <= fuel)%nat ->
                 loop fuel now gameState width height w = Some w'.
Proof.
  intro Hesc. unfold loop.
  destruct (GameState_eqb gameState PLAYING).
  - unfold checkCollisions. cbv zeta. apply waveCheck_eventually, Hesc.
  - exists w, 0%nat. intros fuel _. reflexivity.
Qed.

Lemma loops_eventually now gameState width height n :
  escapesSafeZone width height ->
  forall w,
  exists w' N,
    forall fuel, (N <= fuel)%nat ->
                 loops n fuel now gameState width height w = Some w'.
Proof.
  intro Hesc. induction n as [|n IH]; intro w.
  - exists w, 0%nat. intros fuel _. reflexivity.
  - destruct (loop_eventually now gameState width height w Hesc)
      as (w1 & N1 & H1).
    destruct (IH w1) as (w' & N2 & H2).
    exists w', (Nat.max N1 N2). intros fuel Hf.
    rewrite loops_S, (H1 fuel) by lia. apply H2. lia.
Qed.

(** *** What an iteration keeps *)

Lemma loop_sizes_Some fuel now gameState width height w w' :
  loop fuel now gameState width height w = Some w' ->
  Forall sizeOK (asteroidsRef w) ->
  Forall sizeOK (asteroidsRef w').
Proof.
  unfold loop. destruct (GameState_eqb gameState PLAYING).
  - intros H Hok.
    destruct (checkCollisions_Some _ _ _ _ _ _ _ H) as [Hsizes _].
    apply Hsizes.
    destruct (updatePhysics_frame width height (handleInput w))
      as (_ & Ha & _).
    rewrite Ha. apply Forall_map.
    destruct (handleInput_frame w) as (_ & _ & Ha0 & _). rewrite Ha0.
    revert Hok. apply Forall_impl. intro a. apply updateAsteroid_sizeOK.
  - intros H Hok. inversion H; subst. exact Hok.
Qed.

(** Legal asteroid sizes are an invariant of the loop: when every asteroid
    has a size class between 1 and 4 and the radius of its class before an
    iteration, the iteration returns (for every large enough bound on the
    rejection loop) and so has every asteroid after it, whether it drifted,
    is a fragment of a hit or was spawned for a new wave. *)
Theorem loop_keeps_sizes (now : Z) (gameState : GameState)
    (width height : Q) (w : World) :
  escapesSafeZone width height ->
  Forall sizeOK (asteroidsRef w) ->
  exists N w',
    (forall fuel, (N <= fuel)%nat ->
                  loop fuel now gameState width height w = Some w') /\
    Forall sizeOK (asteroidsRef w').
Proof.
  intros Hesc Hok.
  destruct (loop_eventually now gameState width height w Hesc)
    as (w' & N & Hrun).
  exists N, w'. split; [exact Hrun|].
  exact (loop_sizes_Some _ _ _ _ _ _ _ (Hrun N (le_n N)) Hok).
Qed.

Lemma loop_destroyed_Some fuel now gameState width height w w' :
  loop fuel now gameState width height w = Some w' ->
  destroyed (s_obj (shipRef w)) = Some true ->
  shipRef w' = shipRef w /\ livesRef w' = livesRef w /\
  spreadAmmoRef w' = spreadAmmoRef w /\ timeouts w' = timeouts w.
Proof.
  intros H Hd.
  assert (Hd' : isDestroyed (s_obj (shipRef w)) = true)
    by (unfold isDestroyed; rewrite Hd; reflexivity).
  unfold loop in H. destruct (GameState_eqb gameState PLAYING).
  - destruct (handleInput_frame w) as (_ & _ & _ & _ & _ & _ & Hin).
    rewrite (Hin Hd') in H.
    destruct (updatePhysics_frame width height w) as (Hs & _ & Hl & Ha & Ht).
    assert (Hs' : shipRef (updatePhysics width height w) = shipRef w).
    { rewrite Hs. unfold updateShip. rewrite Hd'. reflexivity. }
    destruct (checkCollisions_Some _ _ _ _ _ _ _ H) as [_ Hsafe].
    destruct Hsafe as (Hs2 & _ & Ht2 & Hdead); [left; congruence|].
    destruct Hdead as [Hl2 Ha2]; [congruence|].
    repeat split; congruence.
  - inversion H; subst. repeat split.
Qed.

(** A destroyed ship is out of the game for the whole iteration: the
    iteration returns, the held keys do not move the ship, the physics step
    does not touch it, it loses no life and collects nothing, and no timer is
    started. *)
Theorem loop_destroyed_ship_frozen (now : Z) (gameState : GameState)
    (width height : Q) (w : World) :
  escapesSafeZone width height ->
  destroyed (s_obj (shipRef w)) = Some true ->
  exists N w',
    (forall fuel, (N <= fuel)%nat ->
                  loop fuel now gameState width height w = Some w') /\
    shipRef w' = shipRef w /\ livesRef w' = livesRef w /\
    spreadAmmoRef w' = spreadAmmoRef w /\ timeouts w' = timeouts w.
Proof.
  intros Hesc Hd.
  destruct (loop_eventually now gameState width height w Hesc)
    as (w' & N & Hrun).
  exists N, w'. split; [exact Hrun|].
  exact (loop_destroyed_Some _ _ _ _ _ _ _ (Hrun N (le_n N)) Hd).
Qed.

Lemma loop_safe_step fuel now width height w w' :
  loop fuel now PLAYING width height w = Some w' ->
  isDestroyed (s_obj (shipRef w)) = false ->
  (1 < invulnerable (shipRef w))%Z ->
  isDestroyed (s_obj (shipRef w')) = false /\
  invulnerable (shipRef w') = (invulnerable (shipRef w) - 1)%Z /\
  (livesRef w <= livesRef w')%Z /\ timeouts w' = timeouts w.
Proof.
  rewrite loop_playing. intros H Hd Hinv.
  destruct (handleInput_frame w) as (Hd1 & Hi1 & _ & Hl1 & _ & Ht1 & _).
  destruct (updatePhysics_frame width height (handleInput w))
    as (Hs2 & _ & Hl2 & _ & Ht2).
  assert (Hship : isDestroyed (s_obj (shipRef
                    (updatePhysics width height (handleInput w)))) = false /\
                  invulnerable (shipRef
                    (updatePhysics width height (handleInput w)))
                  = (invulnerable (shipRef w) - 1)%Z).
  { rewrite Hs2.
    destruct (updateShip_alive width height (shipRef (handleInput w)))
      as [Hd2 Hi2]; [congruence|].
    split; [exact Hd2|]. rewrite Hi2, Hi1.
    replace (0 <? invulnerable (shipRef w))%Z with true
      by (symmetry; apply Z.ltb_lt; lia).
    reflexivity. }
  destruct Hship as [Hd2 Hi2].
  destruct (checkCollisions_Some _ _ _ _ _ _ _ H) as [_ Hsafe].
  destruct Hsafe as (Hs3 & Hl3 & Ht3 & _); [right; lia|].
  rewrite Hs3.
  split; [exact Hd2|]. split; [exact Hi2|].
  split; [rewrite <- Hl1, <- Hl2; exact Hl3 | congruence].
Qed.

Lemma loops_safe n fuel now width height :
  forall w w',
    loops n fuel now PLAYING width height w = Some w' ->
    isDestroyed (s_obj (shipRef w)) = false ->
    (Z.of_nat n < invulnerable (shipRef w))%Z ->
    isDestroyed (s_obj (shipRef w')) = false /\
    invulnerable (shipRef w') = (invulnerable (shipRef w) - Z.of_nat n)%Z /\
    (livesRef w <= livesRef w')%Z /\ timeouts w' = timeouts w.
Proof.
  induction n as [|n IH]; intros w w' H Hd Hinv.
  - inversion H; subst. repeat split; try assumption; lia.
  - rewrite loops_S in H.
    destruct (loop fuel now PLAYING width height w) as [w1|] eqn:H1;
      [|discriminate].
    destruct (loop_safe_step _ _ _ _ _ _ H1 Hd) as (Hd1 & Hi1 & Hl1 & Ht1);
      [lia|].
    destruct (IH w1 w' H Hd1) as (Hd2 & Hi2 & Hl2 & Ht2); [lia|].
    repeat split; try assumption; try lia. congruence.
Qed.

(** *** Score and lives *)

Lemma scheduleDeath_score width height w2 :
  scoreRef (scheduleDeath width height w2) = scoreRef w2.
Proof.
  unfold scheduleDeath. cbn.
  destruct (livesRef w2 - 1 <=? 0)%Z; reflexivity.
Qed.

Lemma shipVsAsteroids_books now width height w :
  scoreRef (shipVsAsteroids now width height w) = scoreRef w /\
  (livesRef w - 1 <= livesRef (shipVsAsteroids now width height w)
   <= livesRef w)%Z.
Proof.
  unfold shipVsAsteroids.
  destruct (negb _ && _); [|split; [reflexivity | lia]].
  destruct (shipScan_cases now width height (asteroidsRef w) w) as [E | E];
    rewrite E.
  - split; [reflexivity | lia].
  - destruct (destroyShip_effect now width height w) as (_ & Hl & _).
    split; [|rewrite Hl; lia].
    rewrite destroyShip_split, scheduleDeath_score.
    destruct (createParticles_sameGameplay now (position (s_obj (shipRef w)))
                20 "#ff00ff" (markDestroyed w))
      as (_ & _ & _ & _ & Hs & _).
    rewrite Hs. reflexivity.
Qed.

Lemma shipVsPowerups_books now w :
  scoreRef (shipVsPowerups now w) = scoreRef w /\
  (livesRef w <= livesRef (shipVsPowerups now w))%Z /\
  ((livesRef w <= 5)%Z -> (livesRef (shipVsPowerups now w) <= 5)%Z).
Proof.
  unfold shipVsPowerups.
  destruct (isDestroyed (s_obj (shipRef w))); cbn [negb].
  - repeat split; solve [reflexivity | lia | intros; assumption].
  - destruct (collectBelow_effect now (powerupsRef w) [] w
                (eq_sym (app_nil_r _)))
      as (_ & _ & Hl & _ & _ & _ & Hsc & _).
    unfold collectBelow in *.
    split; [exact Hsc|]. rewrite Hl. split; [lia | intro; lia].
Qed.

Lemma waveCheck_score fuel now gameState width height w w' :
  waveCheck fuel now gameState width height w = Some w' ->
  scoreRef w' = scoreRef w.
Proof.
  unfold waveCheck.
  destruct ((length (asteroidsRef w) =? 0)%nat && _).
  - cbv zeta.
    destruct (spawnAsteroids _ _ _ _ _ _) as [w2|] eqn:Hspawn; [|discriminate].
    destruct (spawnAsteroids_Some _ _ _ _ _ _ _ Hspawn)
      as (_ & _ & _ & _ & _ & Hsc & _).
    cbn in Hsc.
    destruct (_ && _); intro H; inversion H; subst; clear H;
      unfold spawnPowerup; cbn; exact Hsc.
  - intro H. inversion H; subst. reflexivity.
Qed.

Lemma checkCollisions_books fuel now gameState width height w w' :
  checkCollisions fuel now gameState width height w = Some w' ->
  (scoreRef w <= scoreRef w')%Z /\
  (livesRef w - 1 <= livesRef w')%Z /\
  ((livesRef w <= 5)%Z -> (livesRef w' <= 5)%Z).
Proof.
  unfold checkCollisions. cbv zeta.
  destruct (bulletLoop_accounting now (length (bulletsRef w)) w (le_n _))
    as [Hacc _].
  remember (forDown (length (bulletsRef w)) (bulletVsAsteroids now) w)
    as w1 eqn:E1. clear E1.
  unfold bulletAccounting in Hacc. cbv zeta in Hacc.
  destruct Hacc as (Hh & _ & Hs1 & _ & Hside). unfold shipSide in Hside.
  assert (Hl1 : livesRef w1 = livesRef w) by congruence.
  destruct (shipVsAsteroids_books now width height w1) as (Hs2 & Hl2).
  remember (shipVsAsteroids now width height w1) as w2 eqn:E2. clear E2.
  destruct (shipVsPowerups_books now w2) as (Hs3 & Hl3 & Hcap3).
  remember (shipVsPowerups now w2) as w3 eqn:E3. clear E3.
  intro Hwave.
  pose proof (waveCheck_score _ _ _ _ _ _ _ Hwave) as Hs4.
  destruct (waveCheck_Some _ _ _ _ _ _ _ Hwave) as (_ & Hl4 & _).
  rewrite Hs4, Hl4, Hs3, Hs2.
  split; [lia|]. split; [lia|]. intro H5. apply Hcap3. lia.
Qed.

Lemma handleInput_score w : scoreRef (handleInput w) = scoreRef w.
Proof.
  unfold handleInput. cbv zeta.
  destruct (isDestroyed (s_obj (shipRef w))); reflexivity.
Qed.

Lemma loop_books fuel now gameState width height w w' :
  loop fuel now gameState width height w = Some w' ->
  (scoreRef w <= scoreRef w')%Z /\
  (livesRef w - 1 <= livesRef w')%Z /\
  ((livesRef w <= 5)%Z -> (livesRef w' <= 5)%Z).
Proof.
  unfold loop. destruct (GameState_eqb gameState PLAYING).
  - intro H.
    destruct (checkCollisions_books _ _ _ _ _ _ _ H) as (Hs & Hl & Hcap).
    destruct (handleInput_frame w) as (_ & _ & _ & Hl0 & _).
    destruct (updatePhysics_frame width height (handleInput w))
      as (_ & _ & Hl1 & _).
    assert (Hs1 : scoreRef (updatePhysics width height (handleInput w))
                  = scoreRef w).
    { rewrite <- (handleInput_score w). unfold updatePhysics. reflexivity. }
    rewrite Hs1, Hl1, Hl0 in *. repeat split; assumption.
  - intro H. inversion H; subst. repeat split; solve [lia | intro; assumption].
Qed.

Lemma loops_books n fuel now gameState width height :
  forall w w',
    loops n fuel now gameState width height w = Some w' ->
    (scoreRef w <= scoreRef w')%Z /\
    (livesRef w - Z.of_nat n <= livesRef w')%Z /\
    ((livesRef w <= 5)%Z -> (livesRef w' <= 5)%Z).
Proof.
  induction n as [|n IH]; intros w w' H.
  - inversion H; subst. repeat split; solve [lia | intro; assumption].
  - rewrite loops_S in H.
    destruct (loop fuel now gameState width height w) as [w1|] eqn:H1;
      [|discriminate].
    destruct (loop_books _ _ _ _ _ _ _ H1) as (Hs1 & Hl1 & Hcap1).
    destruct (IH w1 w' H) as (Hs2 & Hl2 & Hcap2).
    split; [lia|]. split; [lia|]. intro H5. apply Hcap2, Hcap1, H5.
Qed.

(** Score and lives over any number of iterations of the loop: the
    iterations return, the score never decreases, at most one life is lost
    per iteration, and the lives never rise above 5 when they started at 5
    or below. *)
Theorem loops_score_and_lives (n : nat) (now : Z) (gameState : GameState)
    (width height : Q) (w : World) :
  escapesSafeZone width height ->
  exists N w',
    (forall fuel, (N <= fuel)%nat ->
                  loops n fuel now gameState width height w = Some w') /\
    (scoreRef w <= scoreRef w')%Z /\
    (livesRef w - Z.of_nat n <= livesRef w')%Z /\
    ((livesRef w <= 5)%Z -> (livesRef w' <= 5)%Z).
Proof.
  intro Hesc.
  destruct (loops_eventually now gameState width height n Hesc w)
    as (w' & N & Hrun).
  exists N, w'. split; [exact Hrun|].
  exact (loops_books _ _ _ _ _ _ _ _ (Hrun N (le_n N))).
Qed.

(** Invulnerability protects through whole iterations: for a ship that is
    not destroyed and whose counter is above [n], [n] iterations of the loop
    return, and after them the ship is still not destroyed, its counter went
    down by [n], no life was lost and no timer started, whatever asteroids it
    crossed. *)
Theorem invulnerable_frames_are_safe (n : nat) (now : Z) (width height : Q)
    (w : World) :
  escapesSafeZone width height ->
  isDestroyed (s_obj (shipRef w)) = false ->
  (Z.of_nat n < invulnerable (shipRef w))%Z ->
  exists N w',
    (forall fuel, (N <= fuel)%nat ->
                  loops n fuel now PLAYING width height w = Some w') /\
    isDestroyed (s_obj (shipRef w')) = false /\
    invulnerable (shipRef w') = (invulnerable (shipRef w) - Z.of_nat n)%Z /\
    (livesRef w <= livesRef w')%Z /\ timeouts w' = timeouts w.
Proof.
  intros Hesc Hd Hinv.
  destruct (loops_eventually now PLAYING width height n Hesc w)
    as (w' & N & Hrun).
  exists N, w'. split; [exact Hrun|].
  exact (loops_safe _ _ _ _ _ _ _ (Hrun N (le_n N)) Hd Hinv).
Qed.

(** A respawn grants 179 safe iterations: after [resetShip], for every
    [n <= 179] the ship is still alive after [n] iterations of the loop, with
    the counter at [180 - n] and no life lost. *)
Theorem respawn_grants_safe_frames (n : nat) (now : Z) (width height : Q)
    (w : World) :
  escapesSafeZone width height ->
  (n <= 179)%nat ->
  exists N w',
    (forall fuel, (N <= fuel)%nat ->
                  loops n fuel now PLAYING width height
                    (resetShip width height w) = Some w') /\
    isDestroyed (s_obj (shipRef w')) = false /\
    invulnerable (shipRef w') = (180 - Z.of_nat n)%Z /\
    (livesRef w <= livesRef w')%Z.
Proof.
  intros Hesc Hn.
  destruct (loops_eventually now PLAYING width height n Hesc
              (resetShip width height w)) as (w' & N & Hrun).
  exists N, w'. split; [exact Hrun|].
  destruct (loops_safe _ _ _ _ _ _ _ (Hrun N (le_n N))) as (Hd & Hi & Hl & _).
  - reflexivity.
  - cbn. lia.
  - repeat split; assumption.
Qed.

End LoopStep.

(** ** Powerup drops *)

Section Drops.

Context {platform : Math.Platform}.

(** With random values in [[0, 1)] and a world of at least 40 x 40,
    [spawnPowerup] appends one powerup of the requested kind with the full
    lifetime of 300 frames, at rest, at least 20 away from every edge, so
    that its disc of radius 15 lies inside the world. *)
Theorem spawnPowerup_inside_margins (now : Z) (t : PowerupKind)
    (width height : Q) (w : World) :
  0 <= Math.randomValue (randomCalls w) < 1 ->
  0 <= Math.randomValue (S (randomCalls w)) < 1 ->
  40 <= width -> 40 <= height ->
  exists p,
    powerupsRef (spawnPowerup now t width height w) = powerupsRef w ++ [p] /\
    kind p = t /\ lifeTime p = 300%Z /\ radius (pu_obj p) = 15 /\
    velocity (pu_obj p) = mkPoint 0 0 /\
    20 <= x (position (pu_obj p)) <= width - 20 /\
    20 <= y (position (pu_obj p)) <= height - 20.
Proof.
  intros Hr1 Hr2 Hw Hh. unfold spawnPowerup. cbn.
  eexists. split; [reflexivity|]. cbn.
  repeat split; try reflexivity; nra.
Qed.

Lemma powerupInterval_cases (now : Z) (canvas : option (Q * Q))
    (w : World) :
  (powerupsRef w <> [] -> powerupInterval now canvas w = w) /\
  (powerupsRef w = [] ->
   exists p,
     powerupsRef (powerupInterval now canvas w) = [p] /\
     kind p = spread_kind /\ lifeTime p = POWERUP_LIFETIME) /\
  length (powerupsRef (powerupInterval now canvas w))
  = Nat.max 1 (length (powerupsRef w)).
Proof.
  unfold powerupInterval.
  destruct (powerupsRef w) as [|p0 rest] eqn:E; cbn [length Nat.eqb].
  - split; [intro H; congruence|]. split.
    + intros _. unfold spawnPowerup. cbn. rewrite E.
      eexists. repeat split.
    + unfold spawnPowerup. cbn. rewrite E. reflexivity.
  - split; [intros _; reflexivity|]. split; [intro H; discriminate|].
    rewrite E. cbn [length]. lia.
Qed.

(** The periodic drop never puts a second powerup on the field: after it ran
    there is at least one powerup and as many as before when there was one,
    the one it adds to an empty field is a spread powerup with the full
    lifetime, and a later run of the drop changes nothing as long as a
    powerup is left, whatever the canvas is by then. *)
Theorem powerupInterval_offers_one (now now' : Z)
    (canvas canvas' : option (Q * Q)) (w : World) :
  length (powerupsRef (powerupInterval now canvas w))
  = Nat.max 1 (length (powerupsRef w)) /\
  (powerupsRef w = [] ->
   exists p,
     powerupsRef (powerupInterval now canvas w) = [p] /\
     kind p = spread_kind /\ lifeTime p = POWERUP_LIFETIME) /\
  powerupInterval now' canvas' (powerupInterval now canvas w)
  = powerupInterval now canvas w.
Proof.
  destruct (powerupInterval_cases now canvas w) as (_ & Hnew & Hlen).
  split; [exact Hlen|]. split; [exact Hnew|].
  apply (powerupInterval_cases now' canvas' (powerupInterval now canvas w)).
  intro Hnil. rewrite Hnil in Hlen. cbn [length] in Hlen. lia.
Qed.

End Drops.

(** ** Keys *)

Section Keys.

Context {platform : Math.Platform} {hypotPrimitive : HypotPrimitive}.

Lemma handleKeyDown_keys now gameState code w :
  keys (handleKeyDown now gameState code w) = keyDown code (keys w).
Proof.
  unfold handleKeyDown. cbv zeta.
  destruct (_ && _ && _); [|reflexivity].
  unfold fireAngles.
  destruct (0 <? spreadAmmoRef _)%Z; reflexivity.
Qed.

(** A key that goes down is held afterwards and released by the matching
    key-up; no other key changes; this holds whether or not the key fired. *)
Theorem key_down_up_roundtrip (now : Z) (gameState : GameState)
    (code : string) (w : World) :
  keys (handleKeyDown now gameState code w) code = true /\
  keys (handleKeyUp code (handleKeyDown now gameState code w)) code = false /\
  forall k, k <> code ->
    keys (handleKeyDown now gameState code w) k = keys w k /\
    keys (handleKeyUp code (handleKeyDown now gameState code w)) k = keys w k.
Proof.
  unfold handleKeyUp. cbn [keys set_keys].
  rewrite handleKeyDown_keys. unfold keyDown.
  rewrite String.eqb_refl.
  split; [reflexivity|]. split; [reflexivity|].
  intros k Hk. apply String.eqb_neq in Hk. rewrite Hk. split; reflexivity.
Qed.

(** No shot without the fire conditions: for a key other than Space, outside
    the playing state, or while the ship is destroyed, a key-down creates no
    bullet, counts no shot and uses no ammunition; it only records the
    key. *)
Theorem handleKeyDown_no_fire (now : Z) (gameState : GameState)
    (code : string) (w : World) :
  code <> "Space"%string \/ gameState <> PLAYING \/
  isDestroyed (s_obj (shipRef w)) = true ->
  handleKeyDown now gameState code w = set_keys w (keyDown code (keys w)) /\
  bulletsRef (handleKeyDown now gameState code w) = bulletsRef w /\
  shotsFiredRef (handleKeyDown now gameState code w) = shotsFiredRef w /\
  spreadAmmoRef (handleKeyDown now gameState code w) = spreadAmmoRef w.
Proof.
  intro H.
  assert (E : handleKeyDown now gameState code w
              = set_keys w (keyDown code (keys w))).
  { unfold handleKeyDown. cbv zeta.
    destruct H as [Hc | [Hg | Hd]].
    - apply String.eqb_neq in Hc. rewrite Hc. reflexivity.
    - destruct gameState; try congruence; rewrite andb_false_r; reflexivity.
    - cbn [shipRef set_keys]. rewrite Hd, andb_false_r. reflexivity. }
  rewrite E. repeat split.
Qed.

(** ** Steering *)

(** [handleInput] on a ship that is not destroyed: the velocity after the
    thrust is kept when its speed is at most [MAX_SPEED]; when the speed [s]
    that [Math.hypot] returns is above [MAX_SPEED] and exact, the velocity
    is scaled to speed [MAX_SPEED] along the same direction (parallel, with
    a positive scalar product).  Only the ship is written, and its position
    is kept. *)
Theorem handleInput_caps_speed (w : World) :
  isDestroyed (s_obj (shipRef w)) = false ->
  let v1 := thrusted w in
  let s := hypotValue (x v1) (y v1) in
  let v2 := velocity (s_obj (shipRef (handleInput w))) in
  rotation (s_obj (shipRef (handleInput w))) = steered w /\
  position (s_obj (shipRef (handleInput w))) = position (s_obj (shipRef w)) /\
  thrusting (shipRef (handleInput w)) = keys w "ArrowUp" /\
  (s <= MAX_SPEED -> v2 = v1) /\
  (MAX_SPEED < s -> s * s == x v1 * x v1 + y v1 * y v1 ->
   x v2 * x v2 + y v2 * y v2 == MAX_SPEED * MAX_SPEED /\
   x v2 * y v1 == y v2 * x v1 /\
   x v2 * x v1 + y v2 * y v1 == MAX_SPEED * s) /\
  handleInput w = set_shipRef w (shipRef (handleInput w)).
Proof.
  intros Hd v1 s v2.
  assert (E : shipRef (handleInput w)
              = mkShip
                  (set_velocity (set_rotation (s_obj (shipRef w)) (steered w))
                     (if Qltb MAX_SPEED s
                      then mkPoint (x v1 / s * MAX_SPEED) (y v1 / s * MAX_SPEED)
                      else v1))
                  (keys w "ArrowUp") (invulnerable (shipRef w))
                  (rotationSpeed (shipRef w)) /\
              handleInput w = set_shipRef w (shipRef (handleInput w))).
  { unfold handleInput. rewrite Hd. split; reflexivity. }
  destruct E as [E Ew].
  unfold v2. rewrite E. cbn [s_obj rotation position velocity thrusting
                             set_velocity set_rotation].
  split; [reflexivity|]. split; [reflexivity|]. split; [reflexivity|].
  split; [|split; [|rewrite <- E; exact Ew]].
  - intro Hle. apply Qltb_false_iff in Hle. rewrite Hle. reflexivity.
  - intros Hlt Hexact. pose proof Hlt as Hlt'.
    apply Qltb_iff in Hlt'. rewrite Hlt'. cbn [x y].
    unfold MAX_SPEED in *.
    assert (Hs : ~ s == 0) by (intro H0; rewrite H0 in Hlt; lra).
    split; [|split].
    + transitivity (36 * (x v1 * x v1 + y v1 * y v1) / (s * s)).
      * field. exact Hs.
      * rewrite <- Hexact. field. exact Hs.
    + field. exact Hs.
    + transitivity (6 * (x v1 * x v1 + y v1 * y v1) / s).
      * field. exact Hs.
      * rewrite <- Hexact. field. exact Hs.
Qed.

End Keys.

(** ** Starting a run *)

Section Start.

Context {platform : Math.Platform}.

(** The start effect sets up nothing, for every loop bound, outside the
    playing state or while an asteroid is left in the array: resuming from a
    pause, or playing again with the old field, keeps the world as it is. *)
Theorem startEffect_idle (fuel : nat) (now : Z) (gameState : GameState)
    (width height : Q) (w : World) :
  gameState <> PLAYING \/ asteroidsRef w <> [] ->
  startEffect fuel now gameState width height w = Some w.
Proof.
  intros [Hg | Hne]; unfold startEffect.
  - destruct gameState; try reflexivity; congruence.
  - destruct (asteroidsRef w); [congruence|].
    rewrite andb_false_r. reflexivity.
Qed.

Lemma startEffect_Some (fuel : nat) (now : Z) (width height : Q)
    (w w' : World) :
  startEffect fuel now PLAYING width height w = Some w' ->
  asteroidsRef w = [] ->
  radius (s_obj (shipRef w)) = SHIP_SIZE ->
  (length (asteroidsRef w') = 5%nat /\
   Forall (spawnedOK (scoreRef w) width height) (asteroidsRef w') /\
   Forall (fun a => shipHitsAsteroid (shipRef w') a = false) (asteroidsRef w'))
  /\
  (shipAtCenter width height (shipRef w') /\
   velocity (s_obj (shipRef w')) = mkPoint 0 0 /\
   isDestroyed (s_obj (shipRef w')) = false /\
   invulnerable (shipRef w') = 180%Z) /\
  (waveCountRef w' = 0%Z /\ spreadAmmoRef w' = 0%Z /\ powerupsRef w' = []) /\
  (scoreRef w' = scoreRef w /\ livesRef w' = livesRef w /\
   shotsFiredRef w' = shotsFiredRef w /\ shotsHitRef w' = shotsHitRef w /\
   bulletsRef w' = bulletsRef w).
Proof.
  intros H Hempty Hrad. unfold startEffect in H.
  rewrite Hempty in H. cbn [length Nat.eqb GameState_eqb andb] in H.
  destruct (spawnAsteroids fuel now 5 width height w) as [w1|] eqn:Hspawn;
    [|discriminate].
  destruct (spawnAsteroids_Some _ _ _ _ _ _ _ Hspawn)
    as (news & Ha & Hlen & Hall & Hb & Hsc & Hh).
  rewrite Hempty in Ha. cbn [app] in Ha.
  unfold bystanders in Hb.
  assert (Hs1 : shipRef w1 = shipRef w) by congruence.
  assert (Hl1 : livesRef w1 = livesRef w) by congruence.
  assert (Hf1 : shotsFiredRef w1 = shotsFiredRef w) by congruence.
  assert (Hb1 : bulletsRef w1 = bulletsRef w) by congruence.
  inversion H; subst w'; clear H.
  unfold resetShip. cbn. rewrite Ha, Hs1.
  assert (Hcenter : shipAtCenter width height
            (mkShip
               (set_destroyed
                  (set_rotation
                     (set_velocity
                        (set_position (s_obj (shipRef w))
                           (mkPoint (width / 2) (height / 2)))
                        (mkPoint 0 0))
                     (- Math.PI / 2)) false)
               (thrusting (shipRef w)) 180 (rotationSpeed (shipRef w)))).
  { split; [reflexivity | exact Hrad]. }
  split; [|split; [|split]].
  - split; [exact Hlen|]. split; [exact Hall|].
    revert Hall. apply Forall_impl. intros a ([Hk Hr] & _ & Hout & _).
    destruct Hcenter as [Hpos Hrad'].
    unfold shipHitsAsteroid. rewrite Hpos, Hrad', Hr. cbn [x y].
    apply center_clearance; [apply inject_Z_range, Hk | exact Hout].
  - split; [exact Hcenter|]. repeat split.
  - repeat split.
  - repeat split; assumption.
Qed.

(** A run that starts on an empty field: the start effect returns (for every
    large enough bound on the rejection loop) with exactly 5 asteroids, all
    created by the spawner and none overlapping the ship; the ship is at the
    center, at rest, not destroyed, with 180 frames of invulnerability; the
    wave counter and the spread ammunition are 0 and no powerup is left.  The
    score, the lives, the shot and hit counters and the bullets keep their
    values. *)
Theorem startEffect_fresh_run (now : Z) (width height : Q) (w : World) :
  escapesSafeZone width height ->
  asteroidsRef w = [] ->
  radius (s_obj (shipRef w)) = SHIP_SIZE ->
  exists N w',
    (forall fuel, (N <= fuel)%nat ->
                  startEffect fuel now PLAYING width height w = Some w') /\
    (length (asteroidsRef w') = 5%nat /\
     Forall (spawnedOK (scoreRef w) width height) (asteroidsRef w') /\
     Forall (fun a => shipHitsAsteroid (shipRef w') a = false)
            (asteroidsRef w')) /\
    (shipAtCenter width height (shipRef w') /\
     velocity (s_obj (shipRef w')) = mkPoint 0 0 /\
     isDestroyed (s_obj (shipRef w')) = false /\
     invulnerable (shipRef w') = 180%Z) /\
    (waveCountRef w' = 0%Z /\ spreadAmmoRef w' = 0%Z /\ powerupsRef w' = []) /\
    (scoreRef w' = scoreRef w /\ livesRef w' = livesRef w /\
     shotsFiredRef w' = shotsFiredRef w /\ shotsHitRef w' = shotsHitRef w /\
     bulletsRef w' = bulletsRef w).
Proof.
  intros Hesc Hempty Hrad.
  destruct (spawnAsteroids_eventually now 5 width height w Hesc)
    as (w1 & N & Hrun).
  set (w' := set_powerupsRef
               (set_spreadAmmoRef
                  (set_waveCountRef (resetShip width height w1) 0) 0) []).
  assert (Hstart : forall fuel, (N <= fuel)%nat ->
            startEffect fuel now PLAYING width height w = Some w').
  { intros fuel Hf. unfold startEffect.
    rewrite Hempty. cbn [length Nat.eqb GameState_eqb andb].
    rewrite (Hrun fuel Hf). reflexivity. }
  exists N, w'. split; [exact Hstart|].
  exact (startEffect_Some N now width height w w' (Hstart N (le_n N))
           Hempty Hrad).
Qed.

End Start.

(** ** The accuracy reported at game over *)

Lemma Qfloor_half_range (q : Q) :
  0 <= q <= 100 -> (0 <= Math_round q <= 100)%Z.
Proof.
  intros [H0 H100]. unfold Math_round. split.
  - change 0%Z with (Qfloor 0). apply Qfloor_resp_le. lra.
  - change 100%Z with (Qfloor 100.5). apply Qfloor_resp_le. lra.
Qed.

(** The accuracy is 0 when no shot was fired; it is a percentage between 0
    and 100 when the hits do not exceed the shots; and it is 100 or more
    when they do. *)
Theorem accuracy_range (w : World) :
  ((shotsFiredRef w <= 0)%Z -> accuracy w = 0%Z) /\
  ((0 <= shotsHitRef w <= shotsFiredRef w)%Z -> (0 <= accuracy w <= 100)%Z) /\
  ((0 < shotsFiredRef w <= shotsHitRef w)%Z -> (100 <= accuracy w)%Z).
Proof.
  unfold accuracy.
  destruct (0 <? shotsFiredRef w)%Z eqn:E;
    [apply Z.ltb_lt in E | apply Z.ltb_ge in E].
  - assert (Hf : 0 < inject_Z (shotsFiredRef w)).
    { change 0 with (inject_Z 0). rewrite <- Zlt_Qlt. exact E. }
    split; [intro; lia|]. split.
    + intros [H0 Hle]. apply Qfloor_half_range.
      assert (Hh0 : 0 <= inject_Z (shotsHitRef w)).
      { change 0 with (inject_Z 0). rewrite <- Zle_Qle. exact H0. }
      assert (Hhf : inject_Z (shotsHitRef w) <= inject_Z (shotsFiredRef w))
        by (rewrite <- Zle_Qle; exact Hle).
      assert (Hq0 : 0 <= inject_Z (shotsHitRef w) / inject_Z (shotsFiredRef w)).
      { apply Qle_shift_div_l; [exact Hf | lra]. }
      assert (Hq1 : inject_Z (shotsHitRef w) / inject_Z (shotsFiredRef w) <= 1).
      { apply Qle_shift_div_r; [exact Hf | lra]. }
      lra.
    + intros [_ Hle]. unfold Math_round.
      apply (Z.le_trans _ (Qfloor 100)); [apply Z.le_refl|].
      apply Qfloor_resp_le.
      assert (Hhf : inject_Z (shotsFiredRef w) <= inject_Z (shotsHitRef w))
        by (rewrite <- Zle_Qle; exact Hle).
      assert (Hq1 : 1 <= inject_Z (shotsHitRef w) / inject_Z (shotsFiredRef w)).
      { apply Qle_shift_div_l; [exact Hf | lra]. }
      lra.
  - split; [reflexivity|]. split; [intro; lia | intro; lia].
Qed.

(** ** The further statements on sample worlds *)

Lemma bullet_strikes_last_overlap_witness :
  nth_error (bulletsRef hitWorld) 0
  = Some (sampleBullet (mkPoint 610 210) (mkPoint 7 0)) /\
  exists pre suf,
    bulletsRef hitWorld
    = pre ++ sampleBullet (mkPoint 610 210) (mkPoint 7 0) :: suf /\
    length pre = 0%nat /\
    bulletsRef (bulletVsAsteroids (platform := samplePlatform) 0 0 hitWorld)
    = pre ++ suf.
Proof.
  assert (Hb : nth_error (bulletsRef hitWorld) 0
               = Some (sampleBullet (mkPoint 610 210) (mkPoint 7 0)))
    by reflexivity.
  split; [exact Hb|].
  destruct (bullet_strikes_last_overlap (platform := samplePlatform)
              0 0 _ hitWorld Hb) as (pre & suf & E & Hi & _ & Hlast).
  exists pre, suf. split; [exact E|]. split; [exact Hi|].
  apply (Hlast 1%nat (sampleAsteroid 3 (mkPoint 600 200) (mkPoint 0 0))).
  - reflexivity.
  - vm_compute. reflexivity.
  - intros j' a' Hj' Hnth.
    destruct j' as [|[|[|j']]]; try lia; discriminate Hnth.
Defined.

Lemma shipVsAsteroids_idle_witness :
  isDestroyed (s_obj (shipRef wreckWorld)) = true /\
  shipVsAsteroids (platform := samplePlatform) 0 800 600 wreckWorld
  = wreckWorld.
Proof.
  split; [reflexivity|].
  apply (shipVsAsteroids_idle (platform := samplePlatform) 0 800 600
           wreckWorld).
  left. reflexivity.
Defined.

Lemma death_starts_one_timer_witness :
  timeouts (shipVsAsteroids (platform := samplePlatform) 0 800 600 crashWorld)
  = timeouts crashWorld ++
    [if (livesRef crashWorld - 1 <=? 0)%Z then (1000%Z, gameOverCallback)
     else (2000%Z, resetShipCallback 800 600)] /\
  length (particlesRef
            (shipVsAsteroids (platform := samplePlatform) 0 800 600 crashWorld))
  = (length (particlesRef crashWorld) + 20)%nat.
Proof.
  apply (death_starts_one_timer (platform := samplePlatform) 0 800 600
           crashWorld).
  - reflexivity.
  - cbn. lia.
  - exists (sampleAsteroid 2 (mkPoint 410 300) (mkPoint 1 0)).
    split; [cbn; auto | vm_compute; reflexivity].
Defined.

Lemma spawnAsteroids_spawned_witness :
  exists N w',
    (forall fuel, (N <= fuel)%nat ->
       spawnAsteroids (platform := samplePlatform) fuel 0 7 800 600
         clearedWorld = Some w') /\
    exists news,
      asteroidsRef w' = asteroidsRef clearedWorld ++ news /\
      length news = Z.to_nat 7 /\
      Forall (spawnedOK (scoreRef clearedWorld) 800 600) news.
Proof.
  exact (spawnAsteroids_spawned (platform := samplePlatform) 0 7 800 600
           clearedWorld sample_escapesSafeZone).
Defined.

Lemma cornerAsteroid_spawnedOK : spawnedOK 6000 800 600 cornerAsteroid.
Proof.
  unfold spawnedOK, sizeOK, cornerAsteroid, sampleAsteroid. cbn.
  repeat split; solve [lia | reflexivity | intros; lia].
Qed.

Lemma spawned_asteroid_misses_centered_ship_witness :
  shipAtCenter 800 600
    (shipRef (resetShip (platform := samplePlatform) 800 600 crashWorld)) /\
  spawnedOK 6000 800 600 cornerAsteroid /\
  shipHitsAsteroid
    (shipRef (resetShip (platform := samplePlatform) 800 600 crashWorld))
    cornerAsteroid = false.
Proof.
  assert (Hc : shipAtCenter 800 600
                 (shipRef (resetShip (platform := samplePlatform) 800 600
                             crashWorld)))
    by (split; reflexivity).
  split; [exact Hc|]. split; [exact cornerAsteroid_spawnedOK|].
  apply (spawned_asteroid_misses_centered_ship 6000 800 600 _ cornerAsteroid
           Hc cornerAsteroid_spawnedOK).
Defined.

Lemma hitWorld_sizes : Forall sizeOK (asteroidsRef hitWorld).
Proof. repeat constructor; cbn; lia. Qed.

Lemma loop_keeps_sizes_witness :
  exists N w',
    (forall fuel, (N <= fuel)%nat ->
       loop (platform := samplePlatform) (hypotPrimitive := sampleHypot)
         fuel 0 PLAYING 800 600 hitWorld = Some w') /\
    Forall sizeOK (asteroidsRef w').
Proof.
  exact (loop_keeps_sizes (platform := samplePlatform)
           (hypotPrimitive := sampleHypot) 0 PLAYING 800 600 hitWorld
           sample_escapesSafeZone hitWorld_sizes).
Defined.

Lemma loop_destroyed_ship_frozen_witness :
  exists N w',
    (forall fuel, (N <= fuel)%nat ->
       loop (platform := samplePlatform) (hypotPrimitive := sampleHypot)
         fuel 0 PLAYING 800 600 wreckWorld = Some w') /\
    shipRef w' = shipRef wreckWorld /\ livesRef w' = livesRef wreckWorld /\
    spreadAmmoRef w' = spreadAmmoRef wreckWorld /\
    timeouts w' = timeouts wreckWorld.
Proof.
  exact (loop_destroyed_ship_frozen (platform := samplePlatform)
           (hypotPrimitive := sampleHypot) 0 PLAYING 800 600 wreckWorld
           sample_escapesSafeZone eq_refl).
Defined.

Lemma volleyWorld_invulnerable :
  (Z.of_nat 3 < invulnerable (shipRef volleyWorld))%Z.
Proof. cbn. lia. Qed.

Lemma invulnerable_frames_are_safe_witness :
  exists N w',
    (forall fuel, (N <= fuel)%nat ->
       loops (platform := samplePlatform) (hypotPrimitive := sampleHypot)
         3 fuel 0 PLAYING 800 600 volleyWorld = Some w') /\
    isDestroyed (s_obj (shipRef w')) = false /\
    invulnerable (shipRef w')
    = (invulnerable (shipRef volleyWorld) - Z.of_nat 3)%Z /\
    (livesRef volleyWorld <= livesRef w')%Z /\
    timeouts w' = timeouts volleyWorld.
Proof.
  exact (invulnerable_frames_are_safe (platform := samplePlatform)
           (hypotPrimitive := sampleHypot) 3 0 800 600 volleyWorld
           sample_escapesSafeZone eq_refl volleyWorld_invulnerable).
Defined.

Lemma respawn_grants_safe_frames_witness :
  exists N w',
    (forall fuel, (N <= fuel)%nat ->
       loops (platform := samplePlatform) (hypotPrimitive := sampleHypot)
         3 fuel 0 PLAYING 800 600
         (resetShip (platform := samplePlatform) 800 600 crashWorld)
       = Some w') /\
    isDestroyed (s_obj (shipRef w')) = false /\
    invulnerable (shipRef w') = (180 - Z.of_nat 3)%Z /\
    (livesRef crashWorld <= livesRef w')%Z.
Proof.
  apply (respawn_grants_safe_frames (platform := samplePlatform)
           (hypotPrimitive := sampleHypot) 3 0 800 600 crashWorld
           sample_escapesSafeZone).
  lia.
Defined.

Lemma loops_score_and_lives_witness :
  exists N w',
    (forall fuel, (N <= fuel)%nat ->
       loops (platform := samplePlatform) (hypotPrimitive := sampleHypot)
         3 fuel 0 PLAYING 800 600 crashWorld = Some w') /\
    (scoreRef crashWorld <= scoreRef w')%Z /\
    (livesRef crashWorld - Z.of_nat 3 <= livesRef w')%Z /\
    ((livesRef crashWorld <= 5)%Z -> (livesRef w' <= 5)%Z).
Proof.
  exact (loops_score_and_lives (platform := samplePlatform)
           (hypotPrimitive := sampleHypot) 3 0 PLAYING 800 600 crashWorld
           sample_escapesSafeZone).
Defined.

Lemma spawnPowerup_inside_margins_witness :
  exists p,
    powerupsRef (spawnPowerup (platform := samplePlatform) 0 life_kind 800 600
                   clearedWorld)
    = powerupsRef clearedWorld ++ [p] /\
    kind p = life_kind /\ lifeTime p = 300%Z /\ radius (pu_obj p) = 15 /\
    velocity (pu_obj p) = mkPoint 0 0 /\
    20 <= x (position (pu_obj p)) <= 800 - 20 /\
    20 <= y (position (pu_obj p)) <= 600 - 20.
Proof.
  apply (spawnPowerup_inside_margins (platform := samplePlatform) 0 life_kind
           800 600 clearedWorld).
  - cbn. lra.
  - cbn. lra.
  - lra.
  - lra.
Defined.

Lemma handleKeyDown_no_fire_witness :
  isDestroyed (s_obj (shipRef wreckWorld)) = true /\
  bulletsRef (handleKeyDown (platform := samplePlatform) 0 PLAYING "Space"
                wreckWorld) = bulletsRef wreckWorld /\
  shotsFiredRef (handleKeyDown (platform := samplePlatform) 0 PLAYING "Space"
                   wreckWorld) = shotsFiredRef wreckWorld.
Proof.
  assert (Hd : isDestroyed (s_obj (shipRef wreckWorld)) = true) by reflexivity.
  split; [exact Hd|].
  destruct (handleKeyDown_no_fire (platform := samplePlatform) 0 PLAYING
              "Space" wreckWorld (or_intror (or_intror Hd)))
    as (_ & Hb & Hf & _).
  split; [exact Hb | exact Hf].
Defined.

Lemma handleInput_caps_speed_witness :
  let v2 := velocity (s_obj (shipRef
              (handleInput (platform := samplePlatform)
                 (hypotPrimitive := sampleHypot) speedingWorld))) in
  x v2 * x v2 + y v2 * y v2 == MAX_SPEED * MAX_SPEED /\
  x v2 * 8 == y v2 * 6.
Proof.
  destruct (handleInput_caps_speed (platform := samplePlatform)
              (hypotPrimitive := sampleHypot) speedingWorld eq_refl)
    as (_ & _ & _ & _ & Hcap & _).
  destruct Hcap as (Hlen & Hpar & _); [vm_compute; reflexivity .. |].
  split; [exact Hlen | exact Hpar].
Defined.

Lemma startEffect_idle_witness :
  asteroidsRef hitWorld <> [] /\
  startEffect (platform := samplePlatform) 3 0 PLAYING 800 600 hitWorld
  = Some hitWorld.
Proof.
  assert (Hne : asteroidsRef hitWorld <> []) by discriminate.
  split; [exact Hne|].
  apply (startEffect_idle (platform := samplePlatform) 3 0 PLAYING 800 600
           hitWorld (or_intror Hne)).
Defined.

Lemma startEffect_fresh_run_witness :
  exists N w',
    (forall fuel, (N <= fuel)%nat ->
       startEffect (platform := samplePlatform) fuel 0 PLAYING 800 600
         clearedWorld = Some w') /\
    length (asteroidsRef w') = 5%nat /\
    Forall (fun a => shipHitsAsteroid (shipRef w') a = false)
           (asteroidsRef w') /\
    invulnerable (shipRef w') = 180%Z /\
    scoreRef w' = scoreRef clearedWorld /\ livesRef w' = livesRef clearedWorld.
Proof.
  destruct (startEffect_fresh_run (platform := samplePlatform) 0 800 600
              clearedWorld sample_escapesSafeZone eq_refl eq_refl)
    as (N & w' & Hrun & (Hlen & _ & Hmiss) & (_ & _ & _ & Hinv) & _
        & (Hsc & Hl & _)).
  exists N, w'. repeat split; assumption.
Defined.

Lemma shipVsPowerups_collects_all_witness :
  isDestroyed (s_obj (shipRef pickupWorld)) = false /\
  powerupsRef (shipVsPowerups (platform := samplePlatform) 0 pickupWorld)
  = filter (fun p => negb (shipTouchesPowerup (shipRef pickupWorld) p))
      (powerupsRef pickupWorld).
Proof.
  split; [reflexivity|].
  destruct (proj2 (shipVsPowerups_collects_all (platform := samplePlatform) 0
                     pickupWorld) eq_refl) as (Hp & _).
  exact Hp.
Defined.

Lemma powerupInterval_offers_one_witness :
  powerupsRef clearedWorld = [] /\
  exists p,
    powerupsRef (powerupInterval (platform := samplePlatform) 0 None
                   clearedWorld) = [p] /\
    kind p = spread_kind /\ lifeTime p = POWERUP_LIFETIME.
Proof.
  split; [reflexivity|].
  exact (proj1 (proj2 (powerupInterval_offers_one (platform := samplePlatform)
                         0 1 None None clearedWorld)) eq_refl).
Defined.

Lemma accuracy_range_witness :
  (0 <= shotsHitRef marksmanWorld <= shotsFiredRef marksmanWorld)%Z /\
  (0 <= accuracy marksmanWorld <= 100)%Z.
Proof.
  assert (H : (0 <= shotsHitRef marksmanWorld <= shotsFiredRef marksmanWorld)%Z)
    by (cbn; lia).
  split; [exact H|].
  exact (proj1 (proj2 (accuracy_range marksmanWorld)) H).
Defined.
